(** * Verification of the call-site patcher [tools/runtime/patch_runtime.py]

    The development embeds the patcher shallowly:

    - Python integers are unbounded, so every address, offset and
      instruction word is a [Z]; [>>], [<<], [&] and [|] are [Z.shiftr],
      [Z.shiftl], [Z.land] and [Z.lor], and [%] with a positive divisor is
      [Z.modulo].
    - The image ([bytearray]) is a [list byte]; [struct.unpack_from] and
      [struct.pack_into] with format ['<I'] are modelled with the offset
      checks of the [struct] module, [None] standing for [struct.error].
    - [patch_call_site] and [patch_runtime] mutate the buffer, bump a
      counter and print; they live in a state-and-exception monad [M].
    - The text printed by the external tools is taken after tokenisation:
      a line of [target-nm] is the list [line.split()], a line of
      [target-objdump] is the triple captured by the [bl] pattern.
    - [get_text_section_info] is also embedded on the raw lines of
      [target-readelf -S] (module [Readelf]), over any reading of
      [str.split()], [str.strip()] and [int(s, 16)]; [main] is embedded on
      [sys.argv]. *)

From Stdlib Require Import ZArith Lia.
From Stdlib.Strings Require Import Byte Ascii.
From stdpp Require Import base option list strings.

Local Open Scope Z_scope.

(** ** Instruction codec *)

(** [encode_bl_instruction] raises [ValueError] with one of two messages. *)
Inductive ValueError : Type :=
| MisalignedTarget (offset : Z)   (* "Target address must be 4-byte aligned" *)
| OffsetOutOfRange (offset : Z).  (* "Branch offset out of range" *)

Definition encode_bl_instruction (pc target : Z) : ValueError + Z :=
  let offset := target - pc in
  if negb (offset mod 4 =? 0) then inl (MisalignedTarget offset)
  else if negb ((- 0x8000000 <=? offset) && (offset <=? 0x7ffffff))
  then inl (OffsetOutOfRange offset)
  else
    let imm26 := Z.land (Z.shiftr offset 2) 0x3ffffff in
    inr (Z.lor 0x94000000 imm26).

(** The opcode-class test of [patch_call_site]:
    [(current_insn & 0xfc000000) != 0x94000000] is the negation of this. *)
Definition is_bl (current_insn : Z) : bool :=
  Z.land current_insn 0xfc000000 =? 0x94000000.

(** The decode rule of [patch_call_site] (the lines that compute
    [imm26], [current_offset] and [current_target]). *)
Definition sign_extend_imm26 (imm26 : Z) : Z :=
  if negb (Z.land imm26 0x2000000 =? 0) then Z.lor imm26 0xfc000000 else imm26.

Definition current_target (call_vaddr current_insn : Z) : Z :=
  let imm26 := Z.land current_insn 0x3ffffff in
  let imm26 := sign_extend_imm26 imm26 in
  let current_offset := Z.shiftl imm26 2 in
  call_vaddr + current_offset.

(** ** The [struct] module on a byte buffer, format ['<I'] *)

Definition byte_to_Z (b : byte) : Z := Z.of_N (Byte.to_N b).

Definition byte_of_Z (z : Z) : byte := default x00 (Byte.of_N (Z.to_N z)).

Definition le32_of_bytes (b0 b1 b2 b3 : byte) : Z :=
  byte_to_Z b0 + 256 * byte_to_Z b1 + 65536 * byte_to_Z b2
  + 16777216 * byte_to_Z b3.

(** Offset normalisation shared by [unpack_from] and [pack_into]: a
    negative offset counts from the end; the [size] bytes must fit. *)
Definition struct_offset (len offset size : Z) : option Z :=
  if offset <? 0 then
    if (0 <? offset + size) || (offset + len <? 0) then None
    else if len - (offset + len) <? size then None else Some (offset + len)
  else if len - offset <? size then None else Some offset.

Definition read_le32 (data : list byte) (i : nat) : option Z :=
  b0 ← data !! i;
  b1 ← data !! (i + 1)%nat;
  b2 ← data !! (i + 2)%nat;
  b3 ← data !! (i + 3)%nat;
  Some (le32_of_bytes b0 b1 b2 b3).

Definition write_le32 (data : list byte) (i : nat) (v : Z) : list byte :=
  <[(i + 3)%nat := byte_of_Z (v / 16777216 mod 256)]>
    (<[(i + 2)%nat := byte_of_Z (v / 65536 mod 256)]>
       (<[(i + 1)%nat := byte_of_Z (v / 256 mod 256)]>
          (<[i := byte_of_Z (v mod 256)]> data))).

(** [struct.unpack_from('<I', data, offset)[0]]; [None] is [struct.error]. *)
Definition unpack_from (data : list byte) (offset : Z) : option Z :=
  o ← struct_offset (Z.of_nat (length data)) offset 4;
  read_le32 data (Z.to_nat o).

(** [struct.pack_into('<I', data, offset, v)]; [None] is [struct.error]
    (buffer too small, or [v] outside [0 .. 0xffffffff]). *)
Definition pack_into (data : list byte) (offset v : Z) : option (list byte) :=
  o ← struct_offset (Z.of_nat (length data)) offset 4;
  if (v <? 0) || (0xffffffff <? v) then None
  else Some (write_le32 data (Z.to_nat o) v).

(** ** Exceptions, diagnostics and the patcher's monad *)

Inductive RuntimeError : Type :=
| CouldNotFindTextSection
| CouldNotFindSymbol (symbol_name : string).

Inductive exn : Type :=
| Raise_RuntimeError (e : RuntimeError)
| Raise_struct_error.

(** One constructor per [print] of the patcher, with the values shown. *)
Inductive event : Type :=
| WarnErrorParsingLine (line : string)
| FoundTextSection (vaddr_base file_offset_base : Z)
| ProcessingReplacement (old_func new_func : string)
| OldFunctionAddress (old_addr : Z)
| NewFunctionAddress (new_addr : Z)
| FoundCallSites (n : nat)
| WarnNoCallSites (old_func : string)
| ErrorRuntime (e : RuntimeError)
| WarnInvalidFileOffset (file_offset call_vaddr : Z)
| WarnNotBl (call_vaddr current_insn : Z)
| WarnTargetMismatch (call_vaddr current_target old_target : Z)
| ErrorCannotEncode (call_vaddr : Z) (e : ValueError)
| PatchedCall (call_vaddr file_offset old_target new_target : Z)
| SuccessfullyPatched (total_patches : Z)
| NoPatchesApplied.

(** The mutable state of a run: the [bytearray], the counter of
    [patch_runtime] and what has been printed so far. *)
Record state : Type := State {
  data : list byte;
  total_patches : Z;
  stdout : list event
}.

Definition M (A : Type) : Type := state → (exn + A) * state.

Definition retM {A} (a : A) : M A := λ s, (inr a, s).

Definition bindM {A B} (m : M A) (k : A → M B) : M B :=
  λ s, match m s with
       | (inl e, s') => (inl e, s')
       | (inr a, s') => k a s'
       end.

Definition raise {A} (e : exn) : M A := λ s, (inl e, s).

Definition print (ev : event) : M unit :=
  λ s, (inr tt, State (data s) (total_patches s) (stdout s ++ [ev])).

Definition get_data : M (list byte) := λ s, (inr (data s), s).

Definition put_data (d : list byte) : M unit :=
  λ s, (inr tt, State d (total_patches s) (stdout s)).

Definition incr_total_patches : M unit :=
  λ s, (inr tt, State (data s) (total_patches s + 1) (stdout s)).

(** [try: body except RuntimeError as e: handler e]; any other exception
    keeps propagating. *)
Definition try_except_RuntimeError {A} (body : M A) (handler : RuntimeError → M A)
  : M A :=
  λ s, match body s with
       | (inl (Raise_RuntimeError e), s') => handler e s'
       | r => r
       end.

Declare Scope patcher_scope.
Delimit Scope patcher_scope with patcher.
Notation "x <- m ;; k" := (bindM m (λ x, k))
  (at level 100, m at next level, right associativity) : patcher_scope.
Notation "m ;;; k" := (bindM m (λ _, k))
  (at level 100, right associativity) : patcher_scope.

(** [for x in xs: body x] *)
Fixpoint for_each {A} (xs : list A) (body : A → M unit) : M unit :=
  match xs with
  | [] => retM tt
  | x :: xs' => (body x ;;; for_each xs' body)%patcher
  end.

(** ** [patch_call_site] *)

Definition patch_call_site
  (file_offset_base vaddr_base call_vaddr old_target new_target : Z) : M bool :=
  (let file_offset := file_offset_base + (call_vaddr - vaddr_base) in
   data <- get_data ;;
   if (file_offset <? 0) || (Z.of_nat (length data) <=? file_offset) then
     print (WarnInvalidFileOffset file_offset call_vaddr) ;;;
     retM false
   else
     match unpack_from data file_offset with
     | None => raise Raise_struct_error
     | Some current_insn =>
       if negb (is_bl current_insn) then
         print (WarnNotBl call_vaddr current_insn) ;;;
         retM false
       else
         let current_target := current_target call_vaddr current_insn in
         (if negb (current_target =? old_target) then
            print (WarnTargetMismatch call_vaddr current_target old_target)
          else retM tt) ;;;
         match encode_bl_instruction call_vaddr new_target with
         | inl e =>
           print (ErrorCannotEncode call_vaddr e) ;;;
           retM false
         | inr new_insn =>
           match pack_into data file_offset new_insn with
           | None => raise Raise_struct_error
           | Some data' =>
             put_data data' ;;;
             print (PatchedCall call_vaddr file_offset old_target new_target) ;;;
             retM true
           end
         end
     end)%patcher.

(** ** Symbol resolver and call-site scanner *)

(** Python's [sub in s] on strings. *)
Fixpoint str_in (sub s : string) : bool :=
  String.prefix sub s ||
  match s with
  | EmptyString => false
  | String _ s' => str_in sub s'
  end.

Section Resolver.

(** Python's [int(s, 16)]; [None] stands for [ValueError]. *)
Variable int16 : string → option Z.

(** The body of the loop over the lines of [target-nm], on
    [parts = line.split()]: the pair appended to [matches], if any. *)
Definition nm_match (symbol_name : string) (parts : list string)
  : option (Z * string) :=
  match parts with
  | addr_str :: sym_type :: ((_ :: _) as rest) =>
    let name := String.concat " " rest in
    if String.eqb name symbol_name && str_in sym_type "Tt" then
      match int16 addr_str with
      | Some addr => Some (addr, sym_type)
      | None => None
      end
    else None
  | _ => None
  end.

Definition nm_matches (nm_lines : list (list string)) (symbol_name : string)
  : list (Z * string) :=
  omap (nm_match symbol_name) nm_lines.

(** [if prefer_type:] is false for [None] and for the empty string. *)
Definition truthy (prefer_type : option string) : bool :=
  match prefer_type with
  | Some p => negb (String.eqb p "")
  | None => false
  end.

Definition has_type (prefer_type : option string) (m : Z * string) : bool :=
  match prefer_type with
  | Some p => String.eqb (snd m) p
  | None => false
  end.

Definition find_symbol_address (nm_lines : list (list string))
  (symbol_name : string) (prefer_type : option string) : RuntimeError + Z :=
  let matches := nm_matches nm_lines symbol_name in
  match matches with
  | [] => inl (CouldNotFindSymbol symbol_name)
  | first :: _ =>
    if truthy prefer_type then
      match List.find (has_type prefer_type) matches with
      | Some m => inr (fst m)
      | None => inr (fst first)
      end
    else inr (fst first)
  end.

End Resolver.

(** A line of [target-objdump -d] is kept as the three groups captured by
    the [bl] pattern, each read in base 16, or [None] when the pattern does
    not match the line. *)
Definition find_call_sites (objdump_lines : list (option (Z * Z * Z)))
  (target_addr : Z) : list (Z * Z) :=
  omap (λ line,
        match line with
        | Some (call_addr, insn, target) =>
          if target =? target_addr then Some (call_addr, insn) else None
        | None => None
        end) objdump_lines.

(** ** [patch_runtime] *)

(** What the external tools report for the image on disk.  The image is
    not written before the commit step, so each tool gives the same output
    every time it is run.  The first two fields are the outcome of
    [get_text_section_info] on the output of [target-readelf]: the pair it
    returns, and the lines it printed "Warning: Error parsing line" for
    on the way. *)
Record tools : Type := Tools {
  text_section : option (Z * Z);  (* (offset, vaddr); None: RuntimeError *)
  text_section_warned : list string;
  nm_lines : list (list string);
  objdump_lines : list (option (Z * Z * Z))
}.

Definition liftR {A} (r : RuntimeError + A) : M A :=
  match r with
  | inl e => raise (Raise_RuntimeError e)
  | inr a => retM a
  end.

Section Runtime.

Variable int16 : string → option Z.
Variable t : tools.

Definition get_text_section_info : RuntimeError + (Z * Z) :=
  match text_section t with
  | Some r => inr r
  | None => inl CouldNotFindTextSection
  end.

(** What [get_text_section_info] prints before it returns or raises. *)
Definition text_section_warnings : list event :=
  map WarnErrorParsingLine (text_section_warned t).

(** The loop [for call_vaddr, _ in call_sites]. *)
Definition patch_call_sites (file_offset_base vaddr_base : Z)
  (call_sites : list (Z * Z)) (old_addr new_addr : Z) : M unit :=
  for_each call_sites
    (λ site,
     (ok <- patch_call_site file_offset_base vaddr_base (fst site)
              old_addr new_addr ;;
      if ok then incr_total_patches else retM tt)%patcher).

(** The body of the loop over [replacements]. *)
Definition process_replacement (file_offset_base vaddr_base : Z)
  (r : string * string) : M unit :=
  let '(old_func, new_func) := r in
  (print (ProcessingReplacement old_func new_func) ;;;
   try_except_RuntimeError
     (old_addr <- liftR (find_symbol_address int16 (nm_lines t) old_func (Some "t")) ;;
      new_addr <- liftR (find_symbol_address int16 (nm_lines t) new_func (Some "T")) ;;
      print (OldFunctionAddress old_addr) ;;;
      print (NewFunctionAddress new_addr) ;;;
      let call_sites := find_call_sites (objdump_lines t) old_addr in
      print (FoundCallSites (length call_sites)) ;;;
      match call_sites with
      | [] => print (WarnNoCallSites old_func)
      | _ => patch_call_sites file_offset_base vaddr_base call_sites
               old_addr new_addr
      end)
     (λ e, print (ErrorRuntime e)))%patcher.

(** The outcome of a run: how [patch_runtime] ends, what it wrote to
    [elf_path] ([None]: the file was never opened for writing) and what
    it printed. *)
Record run : Type := Run {
  exit : exn + bool;
  written : option (list byte);
  printed : list event
}.

Definition patch_runtime (elf : list byte) (replacements : list (string * string))
  : run :=
  match get_text_section_info with
  | inl e => Run (inl (Raise_RuntimeError e)) None text_section_warnings
  | inr (file_offset_base, vaddr_base) =>
    let s0 := State elf 0
                (text_section_warnings
                 ++ [FoundTextSection vaddr_base file_offset_base]) in
    match for_each replacements
            (process_replacement file_offset_base vaddr_base) s0 with
    | (inl e, s) => Run (inl e) None (stdout s)
    | (inr _, s) =>
      if 0 <? total_patches s then
        Run (inr true) (Some (data s))
            (stdout s ++ [SuccessfullyPatched (total_patches s)])
      else
        Run (inr false) None (stdout s ++ [NoPatchesApplied])
    end
  end.

(** The bytes of [elf_path] once the run is over. *)
Definition file_after (elf : list byte) (r : run) : list byte :=
  default elf (written r).

End Runtime.

(** A reader of plain hexadecimal strings, as the address column of
    [target-nm] has them; it instantiates [int16] in the examples. *)
Definition hex_digit (c : Ascii.ascii) : option Z :=
  let n := Z.of_N (Ascii.N_of_ascii c) in
  if (48 <=? n) && (n <=? 57) then Some (n - 48)
  else if (97 <=? n) && (n <=? 102) then Some (n - 87)
  else if (65 <=? n) && (n <=? 70) then Some (n - 55)
  else None.

Fixpoint hex_digits (acc : Z) (s : string) : option Z :=
  match s with
  | EmptyString => Some acc
  | String c s' =>
    match hex_digit c with
    | Some d => hex_digits (16 * acc + d) s'
    | None => None
    end
  end.

Definition hex_value (s : string) : option Z :=
  match s with
  | EmptyString => None
  | _ => hex_digits 0 s
  end.

(** ** [get_text_section_info]

    The section headers printed by [target-readelf -S], line by line.
    [str.split()], [str.strip()] and [int(s, 16)] are taken as they are: the
    parser is written over any three functions of their types. *)

Module Readelf.

(** How the loop over [enumerate(parts)] ends: by the [return], by the
    [ValueError] of an [int(..., 16)], or by running out of parts. *)
Inductive scan : Type :=
| Returned (r : Z * Z)
| RaisedValueError
| Finished.

Section Parse.

Variable split : string → list string.
Variable strip : string → string.
Variable int16 : string → option Z.

(** [part == 'PROGBITS' and i + 2 < len(parts)]: the part is followed by
    at least two more. *)
Fixpoint scan_parts (parts : list string) : scan :=
  match parts with
  | [] => Finished
  | part :: rest =>
    match rest with
    | vaddr_str :: offset_str :: _ =>
      if String.eqb part "PROGBITS" then
        match int16 (strip vaddr_str) with
        | None => RaisedValueError
        | Some vaddr =>
          match int16 (strip offset_str) with
          | None => RaisedValueError
          | Some offset => Returned (offset, vaddr)
          end
        end
      else scan_parts rest
    | _ => scan_parts rest
    end
  end.

(** The lines for which "Warning: Error parsing line" is printed, and the
    pair [(offset, vaddr)] returned or the [RuntimeError] raised. *)
Fixpoint get_text_section_info (lines : list string)
  : list string * (RuntimeError + (Z * Z)) :=
  match lines with
  | [] => ([], inl CouldNotFindTextSection)
  | line :: lines' =>
    if str_in ".text" line && str_in "PROGBITS" line then
      match scan_parts (split line) with
      | Returned r => ([], inr r)
      | RaisedValueError =>
        let '(warned, r) := get_text_section_info lines' in
        (line :: warned, r)
      | Finished => get_text_section_info lines'
      end
    else get_text_section_info lines'
  end.

(** A line from which [get_text_section_info] returns [(offset, vaddr)]:
    it contains [.text] and [PROGBITS], and the first part equal to
    [PROGBITS] is followed by two parts that read as [vaddr] and [offset]. *)
Definition text_line (line : string) (offset vaddr : Z) : Prop :=
  str_in ".text" line = true ∧ str_in "PROGBITS" line = true
  ∧ ∃ before vaddr_str offset_str after,
      split line = before ++ "PROGBITS" :: vaddr_str :: offset_str :: after
      ∧ ("PROGBITS" ∉ before)
      ∧ int16 (strip vaddr_str) = Some vaddr
      ∧ int16 (strip offset_str) = Some offset.

End Parse.

End Readelf.

(** The tool outputs of a run whose section headers are the lines
    [readelf_lines]. *)
Definition tools_of_readelf (split : string → list string)
  (strip : string → string) (int16 : string → option Z)
  (readelf_lines : list string) (nm_lines : list (list string))
  (objdump_lines : list (option (Z * Z * Z))) : tools :=
  let '(warned, r) :=
    Readelf.get_text_section_info split strip int16 readelf_lines in
  Tools (match r with inr p => Some p | inl _ => None end) warned
    nm_lines objdump_lines.

(** ** [main] *)

(** The loop [for i in range(2, len(sys.argv), 2)] on [sys.argv[2:]]; the
    test before it leaves an even number of arguments, so [sys.argv[i + 1]]
    always exists. *)
Fixpoint replacements_of_argv (args : list string) : list (string * string) :=
  match args with
  | old_func :: new_func :: args' =>
    (old_func, new_func) :: replacements_of_argv args'
  | _ => []
  end.

(** The exit status of the process and the run of [patch_runtime], if it
    was started.  [t] and [elf] are what the tools report for, and the
    bytes of, the file named by [sys.argv[1]].  An exception that nothing
    catches ends the interpreter with status 1. *)
Definition main (int16 : string → option Z) (t : tools) (elf : list byte)
  (argv : list string) : Z * option run :=
  let n := Z.of_nat (length argv) in
  if (n <? 4) || negb (n mod 2 =? 0) then (1, None)
  else
    let replacements := replacements_of_argv (drop 2 argv) in
    let r := patch_runtime int16 t elf replacements in
    match exit r with
    | inr true => (0, Some r)
    | inr false => (1, Some r)
    | inl _ => (1, Some r)
    end.

(** ** ASCII readings of [str.split()] and [str.strip()] for the examples *)

Definition is_space (c : Ascii.ascii) : bool :=
  let n := Z.of_N (Ascii.N_of_ascii c) in
  ((9 <=? n) && (n <=? 13)) || ((28 <=? n) && (n <=? 32)).

Fixpoint split_from (word : string) (s : string) : list string :=
  match s with
  | EmptyString => match word with EmptyString => [] | _ => [word] end
  | String c s' =>
    if is_space c then
      match word with
      | EmptyString => split_from EmptyString s'
      | _ => word :: split_from EmptyString s'
      end
    else split_from (word ++ String c EmptyString) s'
  end.

Definition split_ws (s : string) : list string := split_from EmptyString s.

Fixpoint lstrip_ws (s : string) : string :=
  match s with
  | EmptyString => EmptyString
  | String c s' => if is_space c then lstrip_ws s' else s
  end.

Fixpoint rstrip_ws (s : string) : string :=
  match s with
  | EmptyString => EmptyString
  | String c s' =>
    match rstrip_ws s' with
    | EmptyString => if is_space c then EmptyString else String c EmptyString
    | r => String c r
    end
  end.

Definition strip_ws (s : string) : string := rstrip_ws (lstrip_ws s).

(** ** Vocabulary for the statements *)

(** What [patch_call_site] prints for the cross-check of the decoded
    target against [old_target]: a warning on mismatch, nothing otherwise. *)
Definition mismatch_warning (call_vaddr current_insn old_target : Z) : list event :=
  if current_target call_vaddr current_insn =? old_target then []
  else [WarnTargetMismatch call_vaddr (current_target call_vaddr current_insn)
          old_target].

(** The number of "Patched call" lines in the output. *)
Fixpoint patched_sites (log : list event) : Z :=
  match log with
  | [] => 0
  | PatchedCall _ _ _ _ :: log' => 1 + patched_sites log'
  | _ :: log' => patched_sites log'
  end.

(** The state in which [patch_runtime] reaches its commit step, or the
    exception that ends the loop over [replacements]. *)
Definition run_replacements (int16 : string → option Z) (t : tools)
  (elf : list byte) (file_offset_base vaddr_base : Z)
  (replacements : list (string * string)) : (exn + unit) * state :=
  for_each replacements (process_replacement int16 t file_offset_base vaddr_base)
    (State elf 0
       (text_section_warnings t
        ++ [FoundTextSection vaddr_base file_offset_base])).

(** A line of [target-nm] that the resolver takes as a record of
    [symbol_name] at address [addr] with type letter [sym_type]. *)
Definition symbol_record (int16 : string → option Z) (symbol_name : string)
  (parts : list string) (addr : Z) (sym_type : string) : Prop :=
  ∃ addr_str rest,
    parts = addr_str :: sym_type :: rest ∧ rest ≠ []
    ∧ String.concat " " rest = symbol_name
    ∧ str_in sym_type "Tt" = true
    ∧ int16 addr_str = Some addr.

(** The counter agrees with the "Patched call" lines printed so far. *)
Definition counted (s : state) : Prop :=
  total_patches s = patched_sites (stdout s).

(** A computation that keeps the counter and the output in step, however
    it ends. *)
Definition keeps_count {A} (m : M A) : Prop :=
  ∀ s r s', counted s → m s = (r, s') → counted s'.

(** ** A small image for the scenarios

    Three words of code at [0x1000]: a call to [0x2000], a [nop], and a
    call to [0x2000] again.  [old] is at [0x2000] and [new] at [0x2040]. *)
Definition scenario_elf : list byte :=
  [x00; x04; x00; x94; x1f; x20; x03; xd5; xfe; x03; x00; x94].

Definition scenario_tools : tools :=
  Tools (Some (0, 0x1000)) []
    [["0000000000002000"; "t"; "old"]; ["0000000000002040"; "T"; "new"];
     ["0000000008002000"; "T"; "far"]]
    [Some (0x1000, 0x94000400, 0x2000); None; Some (0x1008, 0x940003fe, 0x2000)].

(** ** A file that ends in the middle of a word

    Six bytes of code at [0x1000]: a call to [0x2000] and the first half
    of a second word, which the disassembly lists as a call to [0x2000] as
    well.  In [short_first_tools] the half word comes first in the
    disassembly, in [short_last_tools] it comes last. *)
Definition short_elf : list byte := [x00; x04; x00; x94; xff; x03].

Definition short_first_tools : tools :=
  Tools (Some (0, 0x1000)) []
    [["0000000000002000"; "t"; "old"]; ["0000000000002040"; "T"; "new"]]
    [Some (0x1004, 0x940003ff, 0x2000); Some (0x1000, 0x94000400, 0x2000)].

Definition short_last_tools : tools :=
  Tools (Some (0, 0x1000)) []
    [["0000000000002000"; "t"; "old"]; ["0000000000002040"; "T"; "new"]]
    [Some (0x1000, 0x94000400, 0x2000); Some (0x1004, 0x940003ff, 0x2000)].

(** A computation that keeps a property [D] of the buffer, however it
    ends, and raises only exceptions that [E] allows. *)
Definition keeps_data {A} (D : list byte → Prop) (E : exn → Prop) (m : M A)
  : Prop :=
  ∀ s r s', D (data s) → m s = (r, s') →
            D (data s') ∧ ∀ e, r = inl e → E e.

(** The buffer offset of the instruction at [call_vaddr]. *)
Definition site_offset (file_offset_base vaddr_base call_vaddr : Z) : Z :=
  file_offset_base + (call_vaddr - vaddr_base).

(** Index [j] lies in none of the words at the given call addresses. *)
Definition off_sites (file_offset_base vaddr_base : Z) (call_vaddrs : list Z)
  (j : nat) : Prop :=
  ∀ call_vaddr, call_vaddr ∈ call_vaddrs →
    Z.of_nat j < site_offset file_offset_base vaddr_base call_vaddr
    ∨ site_offset file_offset_base vaddr_base call_vaddr + 4 ≤ Z.of_nat j.

(** The addresses of all the lines of the disassembly that the [bl]
    pattern matches. *)
Definition bl_addresses (objdump_lines : list (option (Z * Z * Z))) : list Z :=
  omap (λ line, match line with
                | Some (call_addr, _, _) => Some call_addr
                | None => None
                end) objdump_lines.

(** * Properties *)

(** ** Bit-level facts about the 26-bit immediate *)

Section Bits.

(** Masking with a shifted mask works on the shifted-down word. *)
Lemma land_shiftl_mask (w k n : Z) :
  0 ≤ n → Z.land w (Z.shiftl k n) = Z.shiftl (Z.land (Z.shiftr w n) k) n.
Proof.
  intros Hn. apply Z.bits_inj'. intros i Hi.
  rewrite Z.land_spec.
  destruct (Z.ltb_spec i n) as [Hlt | Hge].
  - rewrite !Z.shiftl_spec_low by lia. apply andb_false_r.
  - rewrite !Z.shiftl_spec by lia.
    rewrite Z.land_spec, Z.shiftr_spec by lia.
    replace (i - n + n) with i by lia. reflexivity.
Qed.

(** A multiple of [2^n] and a value below [2^n] share no bit. *)
Lemma land_high_low (k m n : Z) :
  0 ≤ n → 0 ≤ m < 2 ^ n → Z.land (k * 2 ^ n) m = 0.
Proof.
  intros Hn Hm. apply Z.bits_inj'. intros i Hi.
  rewrite Z.land_spec, Z.bits_0.
  destruct (Z.ltb_spec i n) as [Hlt | Hge].
  - rewrite Z.mul_pow2_bits_low by lia. reflexivity.
  - rewrite <- (Z.mod_small m (2 ^ n)) by lia.
    rewrite Z.mod_pow2_bits_high by lia. apply andb_false_r.
Qed.

Lemma lor_high_low (k m n : Z) :
  0 ≤ n → 0 ≤ m < 2 ^ n → Z.lor (k * 2 ^ n) m = k * 2 ^ n + m.
Proof.
  intros Hn Hm. symmetry. apply Z.add_nocarry_lor.
  now apply land_high_low.
Qed.

Lemma lor_low_high (k m n : Z) :
  0 ≤ n → 0 ≤ m < 2 ^ n → Z.lor m (k * 2 ^ n) = m + k * 2 ^ n.
Proof.
  intros Hn Hm. rewrite Z.lor_comm, lor_high_low by assumption. lia.
Qed.

Lemma land_imm26 (w : Z) : Z.land w 0x3ffffff = w mod 2 ^ 26.
Proof. change 0x3ffffff with (Z.ones 26). apply Z.land_ones. lia. Qed.

Lemma land_opcode (w : Z) :
  Z.land w 0xfc000000 = ((w / 2 ^ 26) mod 2 ^ 6) * 2 ^ 26.
Proof.
  change 0xfc000000 with (Z.shiftl (Z.ones 6) 26).
  rewrite land_shiftl_mask by lia.
  rewrite Z.land_ones, Z.shiftr_div_pow2, Z.shiftl_mul_pow2 by lia.
  reflexivity.
Qed.

Lemma land_bit25 (m : Z) :
  Z.land m 0x2000000 = ((m / 2 ^ 25) mod 2) * 2 ^ 25.
Proof.
  change 0x2000000 with (Z.shiftl (Z.ones 1) 25).
  rewrite land_shiftl_mask by lia.
  rewrite Z.land_ones, Z.shiftr_div_pow2, Z.shiftl_mul_pow2 by lia.
  reflexivity.
Qed.

Lemma bit25_clear (m : Z) :
  0 ≤ m < 2 ^ 25 → (Z.land m 0x2000000 =? 0) = true.
Proof.
  intros Hm. rewrite land_bit25, Z.div_small by lia. reflexivity.
Qed.

Lemma bit25_set (m : Z) :
  2 ^ 25 ≤ m < 2 ^ 26 → (Z.land m 0x2000000 =? 0) = false.
Proof.
  intros Hm. rewrite land_bit25.
  assert (m / 2 ^ 25 = 1) as ->
    by (symmetry; apply Z.div_unique with (r := m - 2 ^ 25); lia).
  reflexivity.
Qed.

End Bits.

(** ** The encoder *)

Lemma encode_bl_instruction_ok (pc target : Z) :
  (target - pc) mod 4 = 0 →
  - 0x8000000 ≤ target - pc ≤ 0x7ffffff →
  encode_bl_instruction pc target
  = inr (0x94000000 + ((target - pc) / 4) mod 2 ^ 26).
Proof.
  intros Hal Hrg. unfold encode_bl_instruction. cbv zeta.
  rewrite Hal. cbn [Z.eqb negb].
  replace (- 0x8000000 <=? target - pc) with true by (symmetry; apply Z.leb_le; lia).
  replace (target - pc <=? 0x7ffffff) with true by (symmetry; apply Z.leb_le; lia).
  cbn [andb negb]. f_equal.
  rewrite land_imm26, Z.shiftr_div_pow2 by lia.
  change (2 ^ 2) with 4.
  change 0x94000000 with (37 * 2 ^ 26).
  apply lor_high_low; [lia |]. apply Z.mod_pos_bound. lia.
Qed.

Lemma encode_bl_instruction_misaligned (pc target : Z) :
  (target - pc) mod 4 ≠ 0 →
  encode_bl_instruction pc target = inl (MisalignedTarget (target - pc)).
Proof.
  intros Hal. unfold encode_bl_instruction. cbv zeta.
  destruct (Z.eqb_spec ((target - pc) mod 4) 0) as [E | _]; [contradiction |].
  reflexivity.
Qed.

Lemma encode_bl_instruction_out_of_range (pc target : Z) :
  (target - pc) mod 4 = 0 →
  target - pc < - 0x8000000 ∨ 0x7ffffff < target - pc →
  encode_bl_instruction pc target = inl (OffsetOutOfRange (target - pc)).
Proof.
  intros Hal Hrg. unfold encode_bl_instruction. cbv zeta.
  rewrite Hal. cbn [Z.eqb negb].
  destruct (Z.leb_spec (- 0x8000000) (target - pc));
    destruct (Z.leb_spec (target - pc) 0x7ffffff); try reflexivity; lia.
Qed.

(** Inversion: what a successful encoding tells about its arguments. *)
Lemma encode_bl_instruction_inr (pc target w : Z) :
  encode_bl_instruction pc target = inr w →
  (target - pc) mod 4 = 0 ∧ - 0x8000000 ≤ target - pc ≤ 0x7ffffff
  ∧ w = 0x94000000 + ((target - pc) / 4) mod 2 ^ 26.
Proof.
  intros He.
  destruct (Z.eq_dec ((target - pc) mod 4) 0) as [Hal | Hal].
  - destruct (Z_le_dec (- 0x8000000) (target - pc)) as [Hlo | Hlo].
    + destruct (Z_le_dec (target - pc) 0x7ffffff) as [Hhi | Hhi].
      * rewrite encode_bl_instruction_ok in He by lia.
        injection He as <-. repeat split; lia.
      * rewrite encode_bl_instruction_out_of_range in He by lia. discriminate.
    + rewrite encode_bl_instruction_out_of_range in He by lia. discriminate.
  - rewrite encode_bl_instruction_misaligned in He by assumption. discriminate.
Qed.

(** Every word the encoder produces passes the opcode-class test and is a
    32-bit value. *)
Lemma is_bl_word (m : Z) : 0 ≤ m < 2 ^ 26 → is_bl (0x94000000 + m) = true.
Proof.
  intros Hm. unfold is_bl. rewrite land_opcode.
  assert ((0x94000000 + m) / 2 ^ 26 = 37) as ->
    by (symmetry; apply Z.div_unique with (r := m); lia).
  reflexivity.
Qed.

Lemma encode_bl_instruction_is_bl (pc target w : Z) :
  encode_bl_instruction pc target = inr w →
  is_bl w = true ∧ 0 ≤ w ≤ 0xffffffff.
Proof.
  intros He. apply encode_bl_instruction_inr in He as (_ & _ & ->).
  pose proof (Z.mod_pos_bound ((target - pc) / 4) (2 ^ 26) ltac:(lia)) as Hm.
  split; [now apply is_bl_word | lia].
Qed.

(** A word passing the opcode-class test is the opcode plus its low 26
    bits, provided it is a 32-bit value. *)
Lemma is_bl_inv (w : Z) :
  0 ≤ w < 2 ^ 32 → is_bl w = true → w = 0x94000000 + w mod 2 ^ 26.
Proof.
  intros Hw Hbl. unfold is_bl in Hbl. apply Z.eqb_eq in Hbl.
  rewrite land_opcode in Hbl.
  assert (0 ≤ w / 2 ^ 26 < 2 ^ 6) as Hhi.
  { split; [apply Z.div_pos; lia | apply Z.div_lt_upper_bound; lia]. }
  rewrite Z.mod_small in Hbl by assumption.
  pose proof (Z.div_mod w (2 ^ 26) ltac:(lia)) as Hdm.
  lia.
Qed.

(** ** The decode rule of [patch_call_site] *)

Lemma current_target_word (pc m : Z) :
  0 ≤ m < 2 ^ 26 →
  current_target pc (0x94000000 + m)
  = pc + 4 * (if m <? 2 ^ 25 then m else m + 0xfc000000).
Proof.
  intros Hm. unfold current_target, sign_extend_imm26. cbv zeta.
  rewrite land_imm26.
  assert ((0x94000000 + m) mod 2 ^ 26 = m) as ->
    by (symmetry; apply Z.mod_unique with (q := 37); lia).
  destruct (Z.ltb_spec m (2 ^ 25)) as [Hlt | Hge].
  - rewrite bit25_clear by lia. cbn [negb].
    rewrite Z.shiftl_mul_pow2 by lia. lia.
  - rewrite bit25_set by lia. cbn [negb].
    change 0xfc000000 with (63 * 2 ^ 26).
    rewrite lor_low_high by lia.
    rewrite Z.shiftl_mul_pow2 by lia. lia.
Qed.

(** Decoding what the encoder produced: a forward (non-negative) offset
    gives the target back; a backward offset comes out [2^34] too high,
    because the filled-in upper bits make the immediate a large positive
    integer instead of a negative one. *)
Lemma current_target_encode (pc target w : Z) :
  encode_bl_instruction pc target = inr w →
  current_target pc w = if 0 <=? target - pc then target else target + 2 ^ 34.
Proof.
  intros He. apply encode_bl_instruction_inr in He as (Hal & Hrg & ->).
  pose proof (Z.div_mod (target - pc) 4 ltac:(lia)) as Hdm.
  pose proof (Z.mod_pos_bound ((target - pc) / 4) (2 ^ 26) ltac:(lia)) as Hm.
  rewrite current_target_word by assumption.
  destruct (Z.leb_spec 0 (target - pc)) as [Hpos | Hneg].
  - rewrite Z.mod_small by lia.
    destruct (Z.ltb_spec ((target - pc) / 4) (2 ^ 25)); lia.
  - assert (((target - pc) / 4) mod 2 ^ 26 = (target - pc) / 4 + 2 ^ 26) as ->
      by (symmetry; apply Z.mod_unique with (q := -1); lia).
    destruct (Z.ltb_spec ((target - pc) / 4 + 2 ^ 26) (2 ^ 25)); lia.
Qed.

(** ** Bytes and little-endian words *)

Lemma byte_to_Z_range (b : byte) : 0 ≤ byte_to_Z b < 256.
Proof.
  unfold byte_to_Z. pose proof (Byte.to_N_bounded b). lia.
Qed.

Lemma byte_of_to_Z (b : byte) : byte_of_Z (byte_to_Z b) = b.
Proof.
  unfold byte_of_Z, byte_to_Z. rewrite N2Z.id, Byte.of_to_N. reflexivity.
Qed.

Lemma byte_to_of_Z (z : Z) : 0 ≤ z < 256 → byte_to_Z (byte_of_Z z) = z.
Proof.
  intros Hz. unfold byte_of_Z, byte_to_Z.
  destruct (Byte.of_N (Z.to_N z)) as [b |] eqn:E.
  - apply Byte.to_of_N in E. cbn. lia.
  - apply Byte.of_N_None_iff in E. lia.
Qed.

Lemma le32_of_bytes_range (b0 b1 b2 b3 : byte) :
  0 ≤ le32_of_bytes b0 b1 b2 b3 < 2 ^ 32.
Proof.
  unfold le32_of_bytes.
  pose proof (byte_to_Z_range b0). pose proof (byte_to_Z_range b1).
  pose proof (byte_to_Z_range b2). pose proof (byte_to_Z_range b3). lia.
Qed.

(** The four bytes of a little-endian word, recovered by division. *)
Lemma le32_of_bytes_split (b0 b1 b2 b3 : byte) :
  let v := le32_of_bytes b0 b1 b2 b3 in
  v mod 256 = byte_to_Z b0 ∧ v / 256 mod 256 = byte_to_Z b1
  ∧ v / 65536 mod 256 = byte_to_Z b2 ∧ v / 16777216 mod 256 = byte_to_Z b3.
Proof.
  cbv zeta. unfold le32_of_bytes.
  pose proof (byte_to_Z_range b0). pose proof (byte_to_Z_range b1).
  pose proof (byte_to_Z_range b2). pose proof (byte_to_Z_range b3).
  repeat split.
  - symmetry.
    apply Z.mod_unique with
      (q := byte_to_Z b1 + 256 * byte_to_Z b2 + 65536 * byte_to_Z b3); lia.
  - assert ((byte_to_Z b0 + 256 * byte_to_Z b1 + 65536 * byte_to_Z b2
             + 16777216 * byte_to_Z b3) / 256
            = byte_to_Z b1 + 256 * byte_to_Z b2 + 65536 * byte_to_Z b3) as ->
      by (symmetry; apply Z.div_unique with (r := byte_to_Z b0); lia).
    symmetry.
    apply Z.mod_unique with (q := byte_to_Z b2 + 256 * byte_to_Z b3); lia.
  - assert ((byte_to_Z b0 + 256 * byte_to_Z b1 + 65536 * byte_to_Z b2
             + 16777216 * byte_to_Z b3) / 65536
            = byte_to_Z b2 + 256 * byte_to_Z b3) as ->
      by (symmetry;
          apply Z.div_unique with (r := byte_to_Z b0 + 256 * byte_to_Z b1); lia).
    symmetry. apply Z.mod_unique with (q := byte_to_Z b3); lia.
  - assert ((byte_to_Z b0 + 256 * byte_to_Z b1 + 65536 * byte_to_Z b2
             + 16777216 * byte_to_Z b3) / 16777216 = byte_to_Z b3) as ->
      by (symmetry;
          apply Z.div_unique with
            (r := byte_to_Z b0 + 256 * byte_to_Z b1 + 65536 * byte_to_Z b2); lia).
    apply Z.mod_small. lia.
Qed.

(** Conversely, a 32-bit value is the word of its four bytes. *)
Lemma le32_of_bytes_join (v : Z) :
  0 ≤ v < 2 ^ 32 →
  le32_of_bytes (byte_of_Z (v mod 256)) (byte_of_Z (v / 256 mod 256))
    (byte_of_Z (v / 65536 mod 256)) (byte_of_Z (v / 16777216 mod 256)) = v.
Proof.
  intros Hv. unfold le32_of_bytes.
  rewrite !byte_to_of_Z by (apply Z.mod_pos_bound; lia).
  assert (v / 16777216 mod 256 = v / 16777216) as ->.
  { apply Z.mod_small. split; [apply Z.div_pos; lia |].
    apply Z.div_lt_upper_bound; lia. }
  pose proof (Z.div_div v 256 256 ltac:(lia) ltac:(lia)) as D1.
  pose proof (Z.div_div v 65536 256 ltac:(lia) ltac:(lia)) as D2.
  change (256 * 256) with 65536 in D1.
  change (65536 * 256) with 16777216 in D2.
  pose proof (Z.div_mod v 256 ltac:(lia)) as H0.
  pose proof (Z.div_mod (v / 256) 256 ltac:(lia)) as H1.
  pose proof (Z.div_mod (v / 65536) 256 ltac:(lia)) as H2.
  rewrite D1 in H1. rewrite D2 in H2.
  lia.
Qed.

(** ** [struct] offsets *)

Lemma struct_offset_fits (len offset : Z) :
  0 ≤ offset → offset + 4 ≤ len → struct_offset len offset 4 = Some offset.
Proof.
  intros H0 H4. unfold struct_offset.
  destruct (Z.ltb_spec offset 0); [lia |].
  destruct (Z.ltb_spec (len - offset) 4); [lia | reflexivity].
Qed.

(** An offset inside the buffer whose word runs past the end. *)
Lemma struct_offset_short (len offset : Z) :
  0 ≤ offset → len < offset + 4 → struct_offset len offset 4 = None.
Proof.
  intros H0 H4. unfold struct_offset.
  destruct (Z.ltb_spec offset 0); [lia |].
  destruct (Z.ltb_spec (len - offset) 4); [reflexivity | lia].
Qed.

Lemma read_le32_fits (d : list byte) (i : nat) :
  (i + 4 ≤ length d)%nat → is_Some (read_le32 d i).
Proof.
  intros Hi. unfold read_le32.
  destruct (lookup_lt_is_Some_2 d i ltac:(lia)) as [b0 ->].
  destruct (lookup_lt_is_Some_2 d (i + 1) ltac:(lia)) as [b1 ->].
  destruct (lookup_lt_is_Some_2 d (i + 2) ltac:(lia)) as [b2 ->].
  destruct (lookup_lt_is_Some_2 d (i + 3) ltac:(lia)) as [b3 ->].
  cbn. eauto.
Qed.

Lemma read_le32_range (d : list byte) (i : nat) (w : Z) :
  read_le32 d i = Some w → 0 ≤ w < 2 ^ 32 ∧ (i + 4 ≤ length d)%nat.
Proof.
  unfold read_le32. intros H.
  destruct (d !! i) as [b0 |] eqn:E0; [| discriminate].
  destruct (d !! (i + 1)%nat) as [b1 |] eqn:E1; [| discriminate].
  destruct (d !! (i + 2)%nat) as [b2 |] eqn:E2; [| discriminate].
  destruct (d !! (i + 3)%nat) as [b3 |] eqn:E3; [| discriminate].
  cbn in H. injection H as <-.
  split; [apply le32_of_bytes_range |].
  apply lookup_lt_Some in E3. lia.
Qed.

Lemma unpack_from_fits (d : list byte) (offset : Z) :
  0 ≤ offset → offset + 4 ≤ Z.of_nat (length d) →
  unpack_from d offset = read_le32 d (Z.to_nat offset)
  ∧ is_Some (unpack_from d offset).
Proof.
  intros H0 H4. unfold unpack_from.
  rewrite struct_offset_fits by assumption. cbn.
  split; [reflexivity |]. apply read_le32_fits. lia.
Qed.

Lemma unpack_from_short (d : list byte) (offset : Z) :
  0 ≤ offset → Z.of_nat (length d) < offset + 4 → unpack_from d offset = None.
Proof.
  intros H0 H4. unfold unpack_from.
  rewrite struct_offset_short by assumption. reflexivity.
Qed.

Lemma unpack_from_Some (d : list byte) (offset w : Z) :
  0 ≤ offset → unpack_from d offset = Some w →
  offset + 4 ≤ Z.of_nat (length d)
  ∧ read_le32 d (Z.to_nat offset) = Some w ∧ 0 ≤ w < 2 ^ 32.
Proof.
  intros H0 Hu.
  destruct (Z_lt_dec (Z.of_nat (length d)) (offset + 4)) as [Hs | Hs].
  - rewrite unpack_from_short in Hu by assumption. discriminate.
  - destruct (unpack_from_fits d offset H0 ltac:(lia)) as [Heq _].
    rewrite Heq in Hu. split; [lia |]. split; [assumption |].
    now apply read_le32_range in Hu.
Qed.

Lemma pack_into_fits (d : list byte) (offset v : Z) :
  0 ≤ offset → offset + 4 ≤ Z.of_nat (length d) → 0 ≤ v ≤ 0xffffffff →
  pack_into d offset v = Some (write_le32 d (Z.to_nat offset) v).
Proof.
  intros H0 H4 Hv. unfold pack_into.
  rewrite struct_offset_fits by assumption. cbn.
  destruct (Z.ltb_spec v 0); [lia |].
  destruct (Z.ltb_spec 0xffffffff v); [lia | reflexivity].
Qed.

(** ** Writing a word into the buffer *)

Lemma write_le32_length (d : list byte) (i : nat) (v : Z) :
  length (write_le32 d i v) = length d.
Proof. unfold write_le32. now rewrite !length_insert. Qed.

Lemma write_le32_lookup_other (d : list byte) (i j : nat) (v : Z) :
  (j < i ∨ i + 4 ≤ j)%nat → write_le32 d i v !! j = d !! j.
Proof.
  intros Hj. unfold write_le32.
  rewrite !list_lookup_insert_ne by lia. reflexivity.
Qed.

Lemma write_le32_lookup (d : list byte) (i : nat) (v : Z) :
  (i + 4 ≤ length d)%nat →
  write_le32 d i v !! i = Some (byte_of_Z (v mod 256))
  ∧ write_le32 d i v !! (i + 1)%nat = Some (byte_of_Z (v / 256 mod 256))
  ∧ write_le32 d i v !! (i + 2)%nat = Some (byte_of_Z (v / 65536 mod 256))
  ∧ write_le32 d i v !! (i + 3)%nat = Some (byte_of_Z (v / 16777216 mod 256)).
Proof.
  intros Hi. unfold write_le32. repeat split.
  - rewrite !list_lookup_insert_ne by lia.
    apply list_lookup_insert_eq. lia.
  - rewrite !list_lookup_insert_ne by lia.
    apply list_lookup_insert_eq. rewrite !length_insert. lia.
  - rewrite !list_lookup_insert_ne by lia.
    apply list_lookup_insert_eq. rewrite !length_insert. lia.
  - apply list_lookup_insert_eq. rewrite !length_insert. lia.
Qed.

Lemma read_le32_write (d : list byte) (i : nat) (v : Z) :
  (i + 4 ≤ length d)%nat → 0 ≤ v < 2 ^ 32 →
  read_le32 (write_le32 d i v) i = Some v.
Proof.
  intros Hi Hv. unfold read_le32.
  destruct (write_le32_lookup d i v Hi) as (-> & -> & -> & ->). cbn.
  f_equal. now apply le32_of_bytes_join.
Qed.

(** Writing back the word that is already there changes nothing. *)
Lemma write_le32_read (d : list byte) (i : nat) (w : Z) :
  read_le32 d i = Some w → write_le32 d i w = d.
Proof.
  unfold read_le32. intros H.
  destruct (d !! i) as [b0 |] eqn:E0; [| discriminate].
  destruct (d !! (i + 1)%nat) as [b1 |] eqn:E1; [| discriminate].
  destruct (d !! (i + 2)%nat) as [b2 |] eqn:E2; [| discriminate].
  destruct (d !! (i + 3)%nat) as [b3 |] eqn:E3; [| discriminate].
  cbn in H. injection H as <-.
  destruct (le32_of_bytes_split b0 b1 b2 b3) as (S0 & S1 & S2 & S3).
  unfold write_le32. rewrite S0, S1, S2, S3, !byte_of_to_Z.
  rewrite (list_insert_id d i b0) by assumption.
  rewrite (list_insert_id d (i + 1) b1) by assumption.
  rewrite (list_insert_id d (i + 2) b2) by assumption.
  now rewrite (list_insert_id d (i + 3) b3) by assumption.
Qed.

(** ** The paths through [patch_call_site] *)

Ltac unfold_M :=
  unfold bindM, retM, raise, print, get_data, put_data, incr_total_patches.

Section CallSite.

Variables file_offset_base vaddr_base call_vaddr old_target new_target : Z.
Variable s : state.

Let file_offset := file_offset_base + (call_vaddr - vaddr_base).
Let len := Z.of_nat (length (data s)).

(** The bounds check rejects the offset. *)
Lemma patch_call_site_invalid_offset :
  file_offset < 0 ∨ len ≤ file_offset →
  patch_call_site file_offset_base vaddr_base call_vaddr old_target new_target s
  = (inr false,
     State (data s) (total_patches s)
       (stdout s ++ [WarnInvalidFileOffset file_offset call_vaddr])).
Proof.
  intros Hoob. unfold patch_call_site. unfold_M. cbv zeta.
  fold file_offset. fold len.
  destruct (Z.ltb_spec file_offset 0); [reflexivity |].
  destruct (Z.leb_spec len file_offset); [reflexivity | lia].
Qed.

(** The offset passes the bounds check but fewer than four bytes are
    left: [struct.unpack_from] raises. *)
Lemma patch_call_site_short_read :
  0 ≤ file_offset < len → len < file_offset + 4 →
  patch_call_site file_offset_base vaddr_base call_vaddr old_target new_target s
  = (inl Raise_struct_error, s).
Proof.
  intros Hin Hshort. unfold patch_call_site. unfold_M. cbv zeta.
  fold file_offset. fold len.
  destruct (Z.ltb_spec file_offset 0); [lia |].
  destruct (Z.leb_spec len file_offset); [lia |]. cbn [orb].
  unfold len in *. rewrite unpack_from_short by lia. reflexivity.
Qed.

Section Word.

Variable current_insn : Z.
Hypothesis Hin : 0 ≤ file_offset < len.
Hypothesis Hword : unpack_from (data s) file_offset = Some current_insn.

Lemma patch_call_site_not_bl :
  is_bl current_insn = false →
  patch_call_site file_offset_base vaddr_base call_vaddr old_target new_target s
  = (inr false,
     State (data s) (total_patches s)
       (stdout s ++ [WarnNotBl call_vaddr current_insn])).
Proof.
  intros Hbl. unfold patch_call_site. unfold_M. cbv zeta.
  fold file_offset. fold len.
  destruct (Z.ltb_spec file_offset 0); [lia |].
  destruct (Z.leb_spec len file_offset); [lia |]. cbn [orb].
  rewrite Hword, Hbl. reflexivity.
Qed.

Lemma patch_call_site_cannot_encode (e : ValueError) :
  is_bl current_insn = true →
  encode_bl_instruction call_vaddr new_target = inl e →
  patch_call_site file_offset_base vaddr_base call_vaddr old_target new_target s
  = (inr false,
     State (data s) (total_patches s)
       (stdout s ++ mismatch_warning call_vaddr current_insn old_target
        ++ [ErrorCannotEncode call_vaddr e])).
Proof.
  intros Hbl Henc. unfold patch_call_site, mismatch_warning. unfold_M.
  cbv zeta. fold file_offset. fold len.
  destruct (Z.ltb_spec file_offset 0); [lia |].
  destruct (Z.leb_spec len file_offset); [lia |]. cbn [orb].
  rewrite Hword, Hbl, Henc. cbn [negb].
  destruct (current_target call_vaddr current_insn =? old_target);
    cbn; rewrite <- ?app_assoc; reflexivity.
Qed.

Lemma patch_call_site_patched (new_insn : Z) :
  is_bl current_insn = true →
  encode_bl_instruction call_vaddr new_target = inr new_insn →
  patch_call_site file_offset_base vaddr_base call_vaddr old_target new_target s
  = (inr true,
     State (write_le32 (data s) (Z.to_nat file_offset) new_insn)
       (total_patches s)
       (stdout s ++ mismatch_warning call_vaddr current_insn old_target
        ++ [PatchedCall call_vaddr file_offset old_target new_target])).
Proof.
  intros Hbl Henc. unfold patch_call_site, mismatch_warning. unfold_M.
  cbv zeta. fold file_offset. fold len.
  destruct (Z.ltb_spec file_offset 0); [lia |].
  destruct (Z.leb_spec len file_offset); [lia |]. cbn [orb].
  rewrite Hword, Hbl, Henc. cbn [negb].
  destruct (unpack_from_Some (data s) file_offset current_insn ltac:(lia) Hword)
    as (Hfit & _ & _).
  destruct (encode_bl_instruction_is_bl _ _ _ Henc) as [_ Hrange].
  rewrite pack_into_fits by lia.
  destruct (current_target call_vaddr current_insn =? old_target);
    cbn; rewrite <- ?app_assoc; reflexivity.
Qed.

End Word.

(** Every call takes exactly one of the five paths. *)
Lemma patch_call_site_cases :
  let r := patch_call_site file_offset_base vaddr_base call_vaddr
             old_target new_target s in
  ((file_offset < 0 ∨ len ≤ file_offset)
   ∧ r = (inr false,
          State (data s) (total_patches s)
            (stdout s ++ [WarnInvalidFileOffset file_offset call_vaddr])))
  ∨ (0 ≤ file_offset < len ∧ len < file_offset + 4
     ∧ r = (inl Raise_struct_error, s))
  ∨ ∃ current_insn,
      0 ≤ file_offset ∧ file_offset + 4 ≤ len
      ∧ unpack_from (data s) file_offset = Some current_insn
      ∧ ((is_bl current_insn = false
          ∧ r = (inr false,
                 State (data s) (total_patches s)
                   (stdout s ++ [WarnNotBl call_vaddr current_insn])))
         ∨ (is_bl current_insn = true
            ∧ ∃ e, encode_bl_instruction call_vaddr new_target = inl e
              ∧ r = (inr false,
                     State (data s) (total_patches s)
                       (stdout s
                        ++ mismatch_warning call_vaddr current_insn old_target
                        ++ [ErrorCannotEncode call_vaddr e])))
         ∨ (is_bl current_insn = true
            ∧ ∃ new_insn,
                encode_bl_instruction call_vaddr new_target = inr new_insn
                ∧ r = (inr true,
                       State (write_le32 (data s) (Z.to_nat file_offset) new_insn)
                         (total_patches s)
                         (stdout s
                          ++ mismatch_warning call_vaddr current_insn old_target
                          ++ [PatchedCall call_vaddr file_offset old_target
                                new_target])))).
Proof.
  cbv zeta.
  destruct (Z_lt_dec file_offset 0) as [Hneg | Hnn].
  { left. split; [lia |]. apply patch_call_site_invalid_offset. lia. }
  destruct (Z_le_dec len file_offset) as [Hbig | Hlt].
  { left. split; [lia |]. apply patch_call_site_invalid_offset. lia. }
  destruct (Z_lt_dec len (file_offset + 4)) as [Hshort | Hfit].
  { right. left. repeat split; try lia.
    apply patch_call_site_short_read; lia. }
  right. right.
  destruct (unpack_from_fits (data s) file_offset ltac:(lia) ltac:(unfold len in *; lia))
    as [_ [w Hw]].
  exists w. repeat split; try lia; [exact Hw |].
  destruct (is_bl w) eqn:Hbl.
  - right.
    destruct (encode_bl_instruction call_vaddr new_target) as [e | nw] eqn:Henc.
    + left. split; [reflexivity |]. exists e. split; [reflexivity |].
      apply patch_call_site_cannot_encode with (current_insn := w);
        try assumption; lia.
    + right. split; [reflexivity |]. exists nw. split; [reflexivity |].
      apply patch_call_site_patched with (current_insn := w);
        try assumption; lia.
  - left. split; [reflexivity |].
    apply patch_call_site_not_bl; try assumption; lia.
Qed.

End CallSite.

(** ** Encoding and decoding a call *)

(** For a forward call the decode rule inverts the encoder. *)
Lemma current_target_encode_forward (pc target w : Z) :
  0 ≤ target - pc →
  encode_bl_instruction pc target = inr w → current_target pc w = target.
Proof.
  intros Hfw He. rewrite (current_target_encode pc target w He).
  destruct (Z.leb_spec 0 (target - pc)); [reflexivity | lia].
Qed.

(** For a backward call it does not: the decoded address is off by [2^34]. *)
Lemma current_target_encode_backward (pc target w : Z) :
  target - pc < 0 →
  encode_bl_instruction pc target = inr w →
  current_target pc w = target + 2 ^ 34.
Proof.
  intros Hbw He. rewrite (current_target_encode pc target w He).
  destruct (Z.leb_spec 0 (target - pc)); [lia | reflexivity].
Qed.

(** C1 (round trip): the claim is that decoding an encoded call with the
    rule of [patch_call_site] gives the target back for every aligned offset
    in range.  The call quoted in the comment of [find_call_sites], at
    [0x27c2a4] to [0x26ecf0], has an aligned offset in range and encodes to
    the word [0x97ffca93] quoted there, yet the decode rule of
    [patch_call_site] turns that word into [0x40026ecf0], which is not the
    target: the bits filled in for the sign make the immediate a large
    positive integer. *)
Theorem roundtrip_backward_call_example :
  (0x26ecf0 - 0x27c2a4) mod 4 = 0
  ∧ - 0x8000000 ≤ 0x26ecf0 - 0x27c2a4 ≤ 0x7ffffff
  ∧ encode_bl_instruction 0x27c2a4 0x26ecf0 = inr 0x97ffca93
  ∧ current_target 0x27c2a4 0x97ffca93 = 0x40026ecf0
  ∧ current_target 0x27c2a4 0x97ffca93 ≠ 0x26ecf0.
Proof.
  split; [reflexivity |]. split; [lia |]. split; [reflexivity |].
  split; [reflexivity |]. vm_compute. discriminate.
Qed.

(** C3 (boundary offsets): whatever the instruction address, a call at the
    largest offset [2^27 - 4] and one at the smallest offset [-2^27] are
    encoded, and a call one word further in either direction is refused as
    out of range. *)
Theorem encode_boundary_offsets (pc : Z) :
  encode_bl_instruction pc (pc + (2 ^ 27 - 4)) = inr 0x95ffffff
  ∧ encode_bl_instruction pc (pc + - 2 ^ 27) = inr 0x96000000
  ∧ encode_bl_instruction pc (pc + (2 ^ 27 - 4) + 4)
    = inl (OffsetOutOfRange (2 ^ 27))
  ∧ encode_bl_instruction pc (pc + - 2 ^ 27 - 4)
    = inl (OffsetOutOfRange (- 2 ^ 27 - 4)).
Proof.
  repeat split.
  - rewrite encode_bl_instruction_ok.
    + replace (pc + (2 ^ 27 - 4) - pc) with (2 ^ 27 - 4) by lia. reflexivity.
    + replace (pc + (2 ^ 27 - 4) - pc) with (2 ^ 27 - 4) by lia. reflexivity.
    + lia.
  - rewrite encode_bl_instruction_ok.
    + replace (pc + - 2 ^ 27 - pc) with (- 2 ^ 27) by lia. reflexivity.
    + replace (pc + - 2 ^ 27 - pc) with (- 2 ^ 27) by lia. reflexivity.
    + lia.
  - rewrite encode_bl_instruction_out_of_range.
    + f_equal. f_equal. lia.
    + replace (pc + (2 ^ 27 - 4) + 4 - pc) with (2 ^ 27) by lia. reflexivity.
    + lia.
  - rewrite encode_bl_instruction_out_of_range.
    + f_equal. f_equal. lia.
    + replace (pc + - 2 ^ 27 - 4 - pc) with (- 2 ^ 27 - 4) by lia. reflexivity.
    + lia.
Qed.

(** C4 (alignment): an offset that is not a multiple of 4 is refused as
    misaligned, however large or small it is; the range is never looked at. *)
Theorem encode_misaligned_offset (pc target : Z) :
  (target - pc) mod 4 ≠ 0 →
  encode_bl_instruction pc target = inl (MisalignedTarget (target - pc)).
Proof. apply encode_bl_instruction_misaligned. Qed.

(** An offset of [2^40 + 1], far outside the range. *)
Lemma encode_misaligned_offset_witness :
  (0x10000001001 - 0x1000) mod 4 ≠ 0
  ∧ encode_bl_instruction 0x1000 0x10000001001
    = inl (MisalignedTarget (0x10000001001 - 0x1000)).
Proof.
  split.
  - vm_compute. discriminate.
  - apply (encode_misaligned_offset 0x1000 0x10000001001).
    vm_compute. discriminate.
Defined.

(** ** The loop over the call sites of one replacement *)

Lemma patch_call_sites_nil (file_offset_base vaddr_base old_addr new_addr : Z)
  (s : state) :
  patch_call_sites file_offset_base vaddr_base [] old_addr new_addr s = (inr tt, s).
Proof. reflexivity. Qed.

(** One turn of the loop: an exception ends it, [True] bumps the counter,
    [False] goes on to the next site with the counter as it was. *)
Lemma patch_call_sites_cons (file_offset_base vaddr_base old_addr new_addr : Z)
  (site : Z * Z) (rest : list (Z * Z)) (s : state) :
  patch_call_sites file_offset_base vaddr_base (site :: rest) old_addr new_addr s
  = match patch_call_site file_offset_base vaddr_base (fst site)
            old_addr new_addr s with
    | (inl e, s') => (inl e, s')
    | (inr true, s') =>
      patch_call_sites file_offset_base vaddr_base rest old_addr new_addr
        (State (data s') (total_patches s' + 1) (stdout s'))
    | (inr false, s') =>
      patch_call_sites file_offset_base vaddr_base rest old_addr new_addr s'
    end.
Proof.
  unfold patch_call_sites. cbn [for_each]. unfold bindM at 1 2.
  destruct (patch_call_site _ _ _ _ _ s) as [[e | [|]] s']; reflexivity.
Qed.

(** An offset that fails the bounds check: when the translated offset of a
    call site is negative or not below the length of the buffer,
    [patch_call_site] returns [False] without raising, prints the warning
    and leaves buffer and counter alone; the loop over the call sites then
    carries on with the following sites from that state. *)
Lemma out_of_bounds_site_skipped
  (file_offset_base vaddr_base old_addr new_addr call_vaddr insn : Z)
  (rest : list (Z * Z)) (s : state) :
  file_offset_base + (call_vaddr - vaddr_base) < 0
  ∨ Z.of_nat (length (data s)) ≤ file_offset_base + (call_vaddr - vaddr_base) →
  patch_call_site file_offset_base vaddr_base call_vaddr old_addr new_addr s
  = (inr false,
     State (data s) (total_patches s)
       (stdout s
        ++ [WarnInvalidFileOffset (file_offset_base + (call_vaddr - vaddr_base))
              call_vaddr]))
  ∧ patch_call_sites file_offset_base vaddr_base ((call_vaddr, insn) :: rest)
      old_addr new_addr s
    = patch_call_sites file_offset_base vaddr_base rest old_addr new_addr
        (State (data s) (total_patches s)
           (stdout s
            ++ [WarnInvalidFileOffset
                  (file_offset_base + (call_vaddr - vaddr_base)) call_vaddr])).
Proof.
  intros Hoob.
  pose proof (patch_call_site_invalid_offset file_offset_base vaddr_base
                call_vaddr old_addr new_addr s Hoob) as Hsite.
  split; [exact Hsite |].
  rewrite patch_call_sites_cons. cbn [fst]. rewrite Hsite. reflexivity.
Qed.

(** A site past the end of a four-byte buffer, followed by a site inside
    it: the first is skipped, the second is patched and counted. *)
Lemma out_of_bounds_site_skipped_witness :
  let s := State [x00; x00; x00; x94] 0 [] in
  patch_call_site 0 0x1000 0x1004 0x1000 0x1010 s
  = (inr false, State [x00; x00; x00; x94] 0 [WarnInvalidFileOffset 4 0x1004])
  ∧ patch_call_sites 0 0x1000 [(0x1004, 0x97ffffff); (0x1000, 0x94000000)]
      0x1000 0x1010 s
    = (inr tt,
       State [x04; x00; x00; x94] 1
         [WarnInvalidFileOffset 4 0x1004; PatchedCall 0x1000 0 0x1000 0x1010]).
Proof.
  cbv zeta.
  destruct (out_of_bounds_site_skipped 0 0x1000 0x1000 0x1010 0x1004 0x97ffffff
              [(0x1000, 0x94000000)] (State [x00; x00; x00; x94] 0 []))
    as [Hsite Hloop].
  - right. vm_compute. discriminate.
  - split; [exact Hsite |]. rewrite Hloop. reflexivity.
Defined.

(** The check lets through an offset whose word runs past the end of the
    buffer; [struct.unpack_from] then raises [struct.error], which the
    [except RuntimeError] of [patch_runtime] does not catch, and the loop
    stops there. *)
Lemma short_read_ends_loop
  (file_offset_base vaddr_base old_addr new_addr call_vaddr insn : Z)
  (rest : list (Z * Z)) (s : state) :
  0 ≤ file_offset_base + (call_vaddr - vaddr_base) < Z.of_nat (length (data s)) →
  Z.of_nat (length (data s)) < file_offset_base + (call_vaddr - vaddr_base) + 4 →
  patch_call_sites file_offset_base vaddr_base ((call_vaddr, insn) :: rest)
    old_addr new_addr s
  = (inl Raise_struct_error, s).
Proof.
  intros Hin Hshort. rewrite patch_call_sites_cons. cbn [fst].
  now rewrite patch_call_site_short_read.
Qed.

(** C2 (out-of-bounds offset): the claim is that a site whose word does
    not lie inside the buffer is skipped and never ends the run.  In a
    six-byte file the site at [0x1004] translates to offset 4: the offset
    passes the bounds check, which compares it with the length and leaves
    the width of the word out, [struct.unpack_from] raises [struct.error],
    and [patch_runtime], which catches [RuntimeError] only, ends there:
    the site at [0x1000], a call that could be patched, is never tried and
    nothing is written. *)
Theorem short_site_aborts_run_example :
  0 ≤ 0 + (0x1004 - 0x1000) < Z.of_nat (length short_elf)
  ∧ Z.of_nat (length short_elf) < 0 + (0x1004 - 0x1000) + 4
  ∧ patch_call_site 0 0x1000 0x1004 0x2000 0x2040 (State short_elf 0 [])
    = (inl Raise_struct_error, State short_elf 0 [])
  ∧ patch_call_site 0 0x1000 0x1000 0x2000 0x2040 (State short_elf 0 [])
    = (inr true,
       State [x10; x04; x00; x94; xff; x03] 0 [PatchedCall 0x1000 0 0x2000 0x2040])
  ∧ patch_runtime hex_value short_first_tools short_elf [("old", "new")]
    = Run (inl Raise_struct_error) None
        [FoundTextSection 0x1000 0; ProcessingReplacement "old" "new";
         OldFunctionAddress 0x2000; NewFunctionAddress 0x2040; FoundCallSites 2].
Proof.
  split; [cbn; lia |]. split; [cbn; lia |].
  split; [reflexivity |]. split; reflexivity.
Qed.

(** ** Frame properties of [patch_call_site] *)

(** C9 (failure writes nothing): whenever [patch_call_site] returns
    [False], whichever check failed, the buffer after the call is the buffer
    before it. *)
Theorem failure_leaves_buffer_unchanged
  (file_offset_base vaddr_base call_vaddr old_target new_target : Z)
  (s s' : state) :
  patch_call_site file_offset_base vaddr_base call_vaddr old_target new_target s
  = (inr false, s') →
  data s' = data s.
Proof.
  intros Hret.
  destruct (patch_call_site_cases file_offset_base vaddr_base call_vaddr
              old_target new_target s)
    as [[_ Hr] | [(_ & _ & Hr) | (w & _ & _ & _ & Hcase)]].
  - rewrite Hr in Hret. now injection Hret as <-.
  - rewrite Hr in Hret. discriminate.
  - destruct Hcase as [[_ Hr] | [(_ & e & _ & Hr) | (_ & nw & _ & Hr)]];
      rewrite Hr in Hret; try discriminate; now injection Hret as <-.
Qed.

(** A call whose new target is misaligned: the site fails after the
    cross-check, and the eight bytes are as before. *)
Lemma failure_leaves_buffer_unchanged_witness :
  patch_call_site 0 0x1000 0x1000 0x1000 0x1011
    (State [x00; x00; x00; x94; x1f; x20; x03; xd5] 0 [])
  = (inr false,
     State [x00; x00; x00; x94; x1f; x20; x03; xd5] 0
       [ErrorCannotEncode 0x1000 (MisalignedTarget 0x11)])
  ∧ data (State [x00; x00; x00; x94; x1f; x20; x03; xd5] 0
            [ErrorCannotEncode 0x1000 (MisalignedTarget 0x11)])
    = data (State [x00; x00; x00; x94; x1f; x20; x03; xd5] 0 []).
Proof.
  split; [reflexivity |].
  apply (failure_leaves_buffer_unchanged 0 0x1000 0x1000 0x1000 0x1011
           (State [x00; x00; x00; x94; x1f; x20; x03; xd5] 0 [])).
  reflexivity.
Defined.

(** C10 (success writes one word): whenever [patch_call_site] returns
    [True], the buffer keeps its length, the four bytes starting at
    [file_offset_base + (call_vaddr - vaddr_base)] lie inside it and now hold
    the new instruction in little-endian order, and every byte outside those
    four is the byte that was there before. *)
Theorem success_writes_one_word
  (file_offset_base vaddr_base call_vaddr old_target new_target : Z)
  (s s' : state) :
  patch_call_site file_offset_base vaddr_base call_vaddr old_target new_target s
  = (inr true, s') →
  0 ≤ file_offset_base + (call_vaddr - vaddr_base)
  ∧ file_offset_base + (call_vaddr - vaddr_base) + 4 ≤ Z.of_nat (length (data s))
  ∧ length (data s') = length (data s)
  ∧ (∀ j : nat,
       (j < Z.to_nat (file_offset_base + (call_vaddr - vaddr_base))
        ∨ Z.to_nat (file_offset_base + (call_vaddr - vaddr_base)) + 4 ≤ j)%nat →
       data s' !! j = data s !! j)
  ∧ ∃ new_insn,
      encode_bl_instruction call_vaddr new_target = inr new_insn
      ∧ unpack_from (data s') (file_offset_base + (call_vaddr - vaddr_base))
        = Some new_insn.
Proof.
  intros Hret.
  destruct (patch_call_site_cases file_offset_base vaddr_base call_vaddr
              old_target new_target s)
    as [[_ Hr] | [(_ & _ & Hr) | (w & H0 & H4 & _ & Hcase)]].
  - rewrite Hr in Hret. discriminate.
  - rewrite Hr in Hret. discriminate.
  - destruct Hcase as [[_ Hr] | [(_ & e & _ & Hr) | (_ & nw & Henc & Hr)]];
      rewrite Hr in Hret; try discriminate.
    injection Hret as <-. cbn [data].
    split; [lia |]. split; [lia |].
    split; [apply write_le32_length |].
    split; [intros j Hj; now apply write_le32_lookup_other |].
    exists nw. split; [exact Henc |].
    destruct (encode_bl_instruction_is_bl _ _ _ Henc) as [_ Hrange].
    destruct (unpack_from_fits
                (write_le32 (data s)
                   (Z.to_nat (file_offset_base + (call_vaddr - vaddr_base))) nw)
                (file_offset_base + (call_vaddr - vaddr_base)))
      as [-> _]; [lia | rewrite write_le32_length; lia |].
    apply read_le32_write; lia.
Qed.

(** The call at [0x1004] of a twelve-byte image is redirected from
    [0x2004] to [0x2044]; the words before and after it stay. *)
Lemma success_writes_one_word_witness :
  patch_call_site 0 0x1000 0x1004 0x2004 0x2044
    (State [x1f; x20; x03; xd5; x00; x04; x00; x94; xc0; x03; x5f; xd6] 0 [])
  = (inr true,
     State [x1f; x20; x03; xd5; x10; x04; x00; x94; xc0; x03; x5f; xd6] 0
       [PatchedCall 0x1004 4 0x2004 0x2044])
  ∧ ∃ new_insn,
      encode_bl_instruction 0x1004 0x2044 = inr new_insn
      ∧ unpack_from [x1f; x20; x03; xd5; x10; x04; x00; x94; xc0; x03; x5f; xd6] 4
        = Some new_insn.
Proof.
  split; [reflexivity |].
  apply (success_writes_one_word 0 0x1000 0x1004 0x2004 0x2044
           (State [x1f; x20; x03; xd5; x00; x04; x00; x94; xc0; x03; x5f; xd6] 0 [])
           (State [x1f; x20; x03; xd5; x10; x04; x00; x94; xc0; x03; x5f; xd6] 0
              [PatchedCall 0x1004 4 0x2004 0x2044])).
  reflexivity.
Defined.

(** ** The cross-check of the decoded target *)

(** C7 as stated does not hold: a site that passes the opcode-class check
    and whose decoded target differs from the expected address is not
    patched when the new target cannot be encoded.  Here the call at
    [0x1000] targets [0x1000] itself, the expected address is [0x2000], and
    the new target [0x10001000] is 256 MiB away. *)
Lemma mismatch_site_not_always_patched :
  ¬ (∀ (file_offset_base vaddr_base call_vaddr old_target new_target : Z)
       (s : state) (current_insn : Z),
        0 ≤ file_offset_base + (call_vaddr - vaddr_base)
          < Z.of_nat (length (data s)) →
        unpack_from (data s) (file_offset_base + (call_vaddr - vaddr_base))
        = Some current_insn →
        is_bl current_insn = true →
        current_target call_vaddr current_insn ≠ old_target →
        ∃ s', patch_call_site file_offset_base vaddr_base call_vaddr
                old_target new_target s = (inr true, s')).
Proof.
  intros H.
  destruct (H 0 0x1000 0x1000 0x2000 0x10001000
              (State [x00; x00; x00; x94] 0 []) 0x94000000) as [s' Hs'].
  - cbn. lia.
  - reflexivity.
  - reflexivity.
  - vm_compute. discriminate.
  - vm_compute in Hs'. discriminate.
Qed.

(** C7 (mismatch is only a warning), amended: for a site that passes the
    bounds and opcode-class checks and whose decoded target differs from
    the expected address, if the new instruction can be encoded then
    [patch_call_site] prints the mismatch warning, writes the new word,
    prints the "Patched call" line and returns [True], and the loop over the
    call sites counts the site. *)
Theorem mismatch_does_not_block_patch
  (file_offset_base vaddr_base old_addr new_addr call_vaddr insn : Z)
  (rest : list (Z * Z)) (s : state) (current_insn new_insn : Z) :
  0 ≤ file_offset_base + (call_vaddr - vaddr_base) < Z.of_nat (length (data s)) →
  unpack_from (data s) (file_offset_base + (call_vaddr - vaddr_base))
  = Some current_insn →
  is_bl current_insn = true →
  current_target call_vaddr current_insn ≠ old_addr →
  encode_bl_instruction call_vaddr new_addr = inr new_insn →
  patch_call_site file_offset_base vaddr_base call_vaddr old_addr new_addr s
  = (inr true,
     State (write_le32 (data s)
              (Z.to_nat (file_offset_base + (call_vaddr - vaddr_base))) new_insn)
       (total_patches s)
       (stdout s
        ++ [WarnTargetMismatch call_vaddr (current_target call_vaddr current_insn)
              old_addr;
            PatchedCall call_vaddr (file_offset_base + (call_vaddr - vaddr_base))
              old_addr new_addr]))
  ∧ patch_call_sites file_offset_base vaddr_base ((call_vaddr, insn) :: rest)
      old_addr new_addr s
    = patch_call_sites file_offset_base vaddr_base rest old_addr new_addr
        (State (write_le32 (data s)
                  (Z.to_nat (file_offset_base + (call_vaddr - vaddr_base)))
                  new_insn)
           (total_patches s + 1)
           (stdout s
            ++ [WarnTargetMismatch call_vaddr
                  (current_target call_vaddr current_insn) old_addr;
                PatchedCall call_vaddr
                  (file_offset_base + (call_vaddr - vaddr_base))
                  old_addr new_addr])).
Proof.
  intros Hin Hword Hbl Hne Henc.
  pose proof (patch_call_site_patched file_offset_base vaddr_base call_vaddr
                old_addr new_addr s current_insn Hin Hword new_insn Hbl Henc)
    as Hsite.
  unfold mismatch_warning in Hsite.
  destruct (Z.eqb_spec (current_target call_vaddr current_insn) old_addr)
    as [Heq | _]; [contradiction |].
  cbn [app] in Hsite.
  split; [exact Hsite |].
  rewrite patch_call_sites_cons. cbn [fst]. rewrite Hsite. reflexivity.
Qed.

(** Stale disassembly: the call at [0x1000] targets [0x3000], the resolved
    old address is [0x2000]; the site is redirected to [0x2040] all the
    same. *)
Lemma mismatch_does_not_block_patch_witness :
  patch_call_site 0 0x1000 0x1000 0x2000 0x2040 (State [x00; x08; x00; x94] 0 [])
  = (inr true,
     State [x10; x04; x00; x94] 0
       [WarnTargetMismatch 0x1000 0x3000 0x2000; PatchedCall 0x1000 0 0x2000 0x2040])
  ∧ patch_call_sites 0 0x1000 [(0x1000, 0x94000800)] 0x2000 0x2040
      (State [x00; x08; x00; x94] 0 [])
    = (inr tt,
       State [x10; x04; x00; x94] 1
         [WarnTargetMismatch 0x1000 0x3000 0x2000;
          PatchedCall 0x1000 0 0x2000 0x2040]).
Proof.
  apply (mismatch_does_not_block_patch 0 0x1000 0x2000 0x2040 0x1000 0x94000800 []
           (State [x00; x08; x00; x94] 0 []) 0x94000800 0x94000410).
  - cbn. lia.
  - reflexivity.
  - reflexivity.
  - vm_compute. discriminate.
  - reflexivity.
Defined.

(** ** Patching a function onto itself *)

(** When the word in the buffer already is the encoding of a call to
    [addr], redirecting the site from [addr] to [addr] succeeds and leaves
    every byte as it was. *)
Lemma self_patch_same_word
  (file_offset_base vaddr_base call_vaddr addr : Z) (s : state) (w : Z) :
  0 ≤ file_offset_base + (call_vaddr - vaddr_base) < Z.of_nat (length (data s)) →
  unpack_from (data s) (file_offset_base + (call_vaddr - vaddr_base)) = Some w →
  encode_bl_instruction call_vaddr addr = inr w →
  patch_call_site file_offset_base vaddr_base call_vaddr addr addr s
  = (inr true,
     State (data s) (total_patches s)
       (stdout s ++ mismatch_warning call_vaddr w addr
        ++ [PatchedCall call_vaddr (file_offset_base + (call_vaddr - vaddr_base))
              addr addr])).
Proof.
  intros Hin Hword Henc.
  destruct (encode_bl_instruction_is_bl _ _ _ Henc) as [Hbl _].
  rewrite (patch_call_site_patched file_offset_base vaddr_base call_vaddr
             addr addr s w Hin Hword w Hbl Henc).
  destruct (unpack_from_Some (data s)
              (file_offset_base + (call_vaddr - vaddr_base)) w ltac:(lia) Hword)
    as (_ & Hread & _).
  now rewrite (write_le32_read _ _ _ Hread).
Qed.

(** A call word with bit 25 clear is the encoding of a call to the address
    [patch_call_site] decodes from it. *)
Lemma encode_current_target_forward (call_vaddr w : Z) :
  0 ≤ w < 2 ^ 32 → is_bl w = true → w mod 2 ^ 26 < 2 ^ 25 →
  encode_bl_instruction call_vaddr (current_target call_vaddr w) = inr w.
Proof.
  intros Hw Hbl Hlow.
  pose proof (is_bl_inv w Hw Hbl) as Hsplit.
  pose proof (Z.mod_pos_bound w (2 ^ 26) ltac:(lia)) as Hm.
  rewrite Hsplit at 1. rewrite current_target_word by assumption.
  destruct (Z.ltb_spec (w mod 2 ^ 26) (2 ^ 25)) as [_ | Hge]; [| lia].
  replace (call_vaddr + 4 * (w mod 2 ^ 26) - call_vaddr)
    with (w mod 2 ^ 26 * 4) in * by lia.
  rewrite encode_bl_instruction_ok.
  - replace (call_vaddr + 4 * (w mod 2 ^ 26) - call_vaddr)
      with (w mod 2 ^ 26 * 4) by lia.
    rewrite Z.div_mul by lia. rewrite Z.mod_mod by lia.
    f_equal. lia.
  - replace (call_vaddr + 4 * (w mod 2 ^ 26) - call_vaddr)
      with (w mod 2 ^ 26 * 4) by lia.
    apply Z.mod_mul. lia.
  - lia.
Qed.

(** A call word with bit 25 set decodes, in [patch_call_site], to an
    address that the encoder refuses as out of range. *)
Lemma encode_current_target_backward (call_vaddr w : Z) :
  0 ≤ w < 2 ^ 32 → is_bl w = true → 2 ^ 25 ≤ w mod 2 ^ 26 →
  encode_bl_instruction call_vaddr (current_target call_vaddr w)
  = inl (OffsetOutOfRange (current_target call_vaddr w - call_vaddr)).
Proof.
  intros Hw Hbl Hhigh.
  pose proof (is_bl_inv w Hw Hbl) as Hsplit.
  pose proof (Z.mod_pos_bound w (2 ^ 26) ltac:(lia)) as Hm.
  assert (current_target call_vaddr w - call_vaddr
          = (w mod 2 ^ 26 + 0xfc000000) * 4) as Hoff.
  { rewrite Hsplit at 1. rewrite current_target_word by assumption.
    destruct (Z.ltb_spec (w mod 2 ^ 26) (2 ^ 25)); lia. }
  apply encode_bl_instruction_out_of_range.
  - rewrite Hoff. apply Z.mod_mul. lia.
  - right. lia.
Qed.

(** Self-patch of a forward call whose decoded target is [addr]: the site
    is rewritten, without a warning, and the buffer is unchanged. *)
Lemma self_patch_forward
  (file_offset_base vaddr_base call_vaddr addr : Z) (s : state) (w : Z) :
  0 ≤ file_offset_base + (call_vaddr - vaddr_base) < Z.of_nat (length (data s)) →
  unpack_from (data s) (file_offset_base + (call_vaddr - vaddr_base)) = Some w →
  is_bl w = true → w mod 2 ^ 26 < 2 ^ 25 →
  current_target call_vaddr w = addr →
  patch_call_site file_offset_base vaddr_base call_vaddr addr addr s
  = (inr true,
     State (data s) (total_patches s)
       (stdout s
        ++ [PatchedCall call_vaddr (file_offset_base + (call_vaddr - vaddr_base))
              addr addr])).
Proof.
  intros Hin Hword Hbl Hlow Hdec.
  destruct (unpack_from_Some (data s)
              (file_offset_base + (call_vaddr - vaddr_base)) w ltac:(lia) Hword)
    as (_ & _ & Hw).
  pose proof (encode_current_target_forward call_vaddr w Hw Hbl Hlow) as Henc.
  rewrite Hdec in Henc.
  rewrite (self_patch_same_word _ _ _ _ _ w Hin Hword Henc).
  unfold mismatch_warning. rewrite Hdec, Z.eqb_refl. reflexivity.
Qed.

(** Self-patch of a backward call whose decoded target, as
    [patch_call_site] computes it, is [addr]: the encoder refuses [addr] and
    the site is not rewritten. *)
Lemma self_patch_backward
  (file_offset_base vaddr_base call_vaddr addr : Z) (s : state) (w : Z) :
  0 ≤ file_offset_base + (call_vaddr - vaddr_base) < Z.of_nat (length (data s)) →
  unpack_from (data s) (file_offset_base + (call_vaddr - vaddr_base)) = Some w →
  is_bl w = true → 2 ^ 25 ≤ w mod 2 ^ 26 →
  current_target call_vaddr w = addr →
  patch_call_site file_offset_base vaddr_base call_vaddr addr addr s
  = (inr false,
     State (data s) (total_patches s)
       (stdout s
        ++ [ErrorCannotEncode call_vaddr (OffsetOutOfRange (addr - call_vaddr))])).
Proof.
  intros Hin Hword Hbl Hhigh Hdec.
  destruct (unpack_from_Some (data s)
              (file_offset_base + (call_vaddr - vaddr_base)) w ltac:(lia) Hword)
    as (_ & _ & Hw).
  pose proof (encode_current_target_backward call_vaddr w Hw Hbl Hhigh) as Henc.
  rewrite Hdec in Henc.
  rewrite (patch_call_site_cannot_encode _ _ _ _ _ _ w Hin Hword _ Hbl Henc).
  unfold mismatch_warning. rewrite Hdec, Z.eqb_refl. reflexivity.
Qed.




(** The buffer holds the backward call [0x97ffca93] at [0x27c2a4]; it
    passes the opcode-class check and [patch_call_site] decodes its target
    as [0x40026ecf0].  With that address, which no call at [0x27c2a4] can
    reach, as source and target there is no mismatch warning, but the
    encoder refuses the offset and the site is reported as failed. *)
Example self_patch_decoded_address_example :
  unpack_from [x93; xca; xff; x97] 0 = Some 0x97ffca93
  ∧ is_bl 0x97ffca93 = true
  ∧ current_target 0x27c2a4 0x97ffca93 = 0x40026ecf0
  ∧ patch_call_site 0 0x27c2a4 0x27c2a4 0x40026ecf0 0x40026ecf0
      (State [x93; xca; xff; x97] 0 [])
    = (inr false,
       State [x93; xca; xff; x97] 0
         [ErrorCannotEncode 0x27c2a4 (OffsetOutOfRange 0x3ffff2a4c)]).
Proof.
  split; [reflexivity |]. split; [reflexivity |]. split; reflexivity.
Qed.

(** ** The symbol resolver *)

(** The type-letter test [sym_type in 'Tt'] on a one-letter token accepts
    exactly the two function-symbol classes. *)
Lemma str_in_Tt_letter (c : Ascii.ascii) :
  str_in (String c "") "Tt" = true ↔ String c "" = "T" ∨ String c "" = "t".
Proof.
  cbn. split.
  - intros H.
    destruct (Ascii.ascii_dec c "T"%char) as [-> | _]; [now left |].
    destruct (Ascii.ascii_dec c "t"%char) as [-> | _]; [now right |].
    discriminate.
  - intros [[= ->] | [= ->]]; reflexivity.
Qed.

Section ResolverFacts.

Variable int16 : string → option Z.

Lemma nm_match_record (symbol_name : string) (parts : list string)
  (addr : Z) (sym_type : string) :
  nm_match int16 symbol_name parts = Some (addr, sym_type)
  ↔ symbol_record int16 symbol_name parts addr sym_type.
Proof.
  unfold symbol_record. split.
  - destruct parts as [| addr_str [| ty [| r rest]]]; try discriminate.
    unfold nm_match.
    destruct (String.eqb_spec (String.concat " " (r :: rest)) symbol_name)
      as [Hname | _]; [| discriminate].
    destruct (str_in ty "Tt") eqn:Hty; [| discriminate].
    destruct (int16 addr_str) as [a |] eqn:Hint; [| discriminate].
    cbn. intros [= <- <-].
    exists addr_str, (r :: rest). repeat split; try assumption. discriminate.
  - intros (addr_str & rest & -> & Hrest & Hname & Hty & Hint).
    destruct rest as [| r rest]; [contradiction |].
    unfold nm_match. rewrite Hname, String.eqb_refl, Hty, Hint. reflexivity.
Qed.

Lemma nm_matches_none (lines : list (list string)) (symbol_name : string) :
  nm_matches int16 lines symbol_name = []
  ↔ ∀ parts, parts ∈ lines → nm_match int16 symbol_name parts = None.
Proof.
  unfold nm_matches. induction lines as [| l lines IH]; cbn.
  - split; [intros _ parts Hin; inversion Hin | reflexivity].
  - destruct (nm_match int16 symbol_name l) as [m |] eqn:El.
    + split; [discriminate |]. intros H.
      specialize (H l ltac:(left)). congruence.
    + rewrite IH. split.
      * intros H parts Hin. apply elem_of_cons in Hin as [-> | Hin]; auto.
      * intros H parts Hin. apply H. now right.
Qed.

Lemma nm_matches_split (before after : list (list string)) (parts : list string)
  (symbol_name : string) (m : Z * string) :
  nm_match int16 symbol_name parts = Some m →
  nm_matches int16 (before ++ parts :: after) symbol_name
  = nm_matches int16 before symbol_name ++ m :: nm_matches int16 after symbol_name.
Proof.
  intros Hm. unfold nm_matches. rewrite omap_app. cbn. now rewrite Hm.
Qed.

End ResolverFacts.

Lemma find_first_app {A} (f : A → bool) (l1 l2 : list A) (m : A) :
  (∀ x, x ∈ l1 → f x = false) → f m = true →
  List.find f (l1 ++ m :: l2) = Some m.
Proof.
  intros Hl1 Hm. induction l1 as [| x l1 IH]; cbn.
  - now rewrite Hm.
  - rewrite (Hl1 x) by now left. apply IH. intros y Hy. apply Hl1. now right.
Qed.

Lemma find_none_all {A} (f : A → bool) (l : list A) :
  (∀ x, x ∈ l → f x = false) → List.find f l = None.
Proof.
  intros Hl. induction l as [| x l IH]; cbn; [reflexivity |].
  rewrite (Hl x) by now left. apply IH. intros y Hy. apply Hl. now right.
Qed.

(** C6 (symbol resolution): with a preferred type letter given, the
    resolver returns the address of the first line, in input order, that is
    a record of the requested name with that letter; when no record of the
    name has the preferred letter it returns the address of the first
    record of the name whatever its letter; and it raises "Could not find
    symbol" exactly when no line is a record of the name. *)
Theorem find_symbol_address_resolution (int16 : string → option Z)
  (lines : list (list string)) (symbol_name prefer_type : string) :
  prefer_type ≠ "" →
  (∀ before parts after addr,
     lines = before ++ parts :: after →
     symbol_record int16 symbol_name parts addr prefer_type →
     (∀ l a, l ∈ before → ¬ symbol_record int16 symbol_name l a prefer_type) →
     find_symbol_address int16 lines symbol_name (Some prefer_type) = inr addr)
  ∧ (∀ before parts after addr sym_type,
       (∀ l a, l ∈ lines → ¬ symbol_record int16 symbol_name l a prefer_type) →
       lines = before ++ parts :: after →
       symbol_record int16 symbol_name parts addr sym_type →
       (∀ l a ty, l ∈ before → ¬ symbol_record int16 symbol_name l a ty) →
       find_symbol_address int16 lines symbol_name (Some prefer_type) = inr addr)
  ∧ (find_symbol_address int16 lines symbol_name (Some prefer_type)
     = inl (CouldNotFindSymbol symbol_name)
     ↔ ∀ l a ty, l ∈ lines → ¬ symbol_record int16 symbol_name l a ty)
  ∧ (∀ e, find_symbol_address int16 lines symbol_name (Some prefer_type) = inl e →
          e = CouldNotFindSymbol symbol_name).
Proof.
  intros Hp.
  assert (truthy (Some prefer_type) = true) as Htruthy.
  { cbn. now destruct (String.eqb_spec prefer_type ""). }
  split; [| split; [| split]].
  - intros before parts after addr -> Hrec Hbefore.
    apply nm_match_record in Hrec.
    unfold find_symbol_address. cbv zeta.
    rewrite (nm_matches_split int16 before after parts symbol_name _ Hrec).
    rewrite Htruthy.
    rewrite (find_first_app (has_type (Some prefer_type))
               (nm_matches int16 before symbol_name)
               (nm_matches int16 after symbol_name) (addr, prefer_type)).
    + now destruct (nm_matches int16 before symbol_name).
    + intros [a ty] Hin. unfold nm_matches in Hin.
      apply list_elem_of_omap in Hin as (l & Hl & Hmatch).
      cbn. destruct (String.eqb_spec ty prefer_type) as [-> | _]; [| reflexivity].
      apply nm_match_record in Hmatch. now destruct (Hbefore l a Hl).
    + cbn. apply String.eqb_refl.
  - intros before parts after addr sym_type Hnone -> Hrec Hbefore.
    apply nm_match_record in Hrec.
    unfold find_symbol_address. cbv zeta.
    rewrite (nm_matches_split int16 before after parts symbol_name _ Hrec).
    assert (nm_matches int16 before symbol_name = []) as ->.
    { apply nm_matches_none. intros l Hl.
      destruct (nm_match int16 symbol_name l) as [[a ty] |] eqn:El; [| reflexivity].
      apply nm_match_record in El. now destruct (Hbefore l a ty Hl). }
    cbn [app]. rewrite Htruthy.
    rewrite find_none_all; [reflexivity |].
    intros [a ty] Hin.
    cbn. destruct (String.eqb_spec ty prefer_type) as [-> | _]; [| reflexivity].
    assert ((a, prefer_type) ∈ nm_matches int16 (before ++ parts :: after) symbol_name)
      as Hin'.
    { rewrite (nm_matches_split int16 before after parts symbol_name _ Hrec).
      apply elem_of_app. now right. }
    unfold nm_matches in Hin'.
    apply list_elem_of_omap in Hin' as (l & Hl & Hmatch).
    apply nm_match_record in Hmatch. now destruct (Hnone l a Hl).
  - unfold find_symbol_address. cbv zeta. rewrite Htruthy. split.
    + intros Hfail l a ty Hl Hrec.
      apply nm_match_record in Hrec.
      destruct (nm_matches int16 lines symbol_name) as [| first ms] eqn:Ems.
      * pose proof (proj1 (nm_matches_none int16 lines symbol_name) Ems l Hl).
        congruence.
      * destruct (List.find (has_type (Some prefer_type)) (first :: ms));
          discriminate.
    + intros Hnone.
      assert (nm_matches int16 lines symbol_name = []) as ->; [| reflexivity].
      apply nm_matches_none. intros l Hl.
      destruct (nm_match int16 symbol_name l) as [[a ty] |] eqn:El; [| reflexivity].
      apply nm_match_record in El. now destruct (Hnone l a ty Hl).
  - intros e. unfold find_symbol_address. cbv zeta.
    destruct (nm_matches int16 lines symbol_name) as [| first ms].
    + now intros [= <-].
    + rewrite Htruthy.
      destruct (List.find (has_type (Some prefer_type)) (first :: ms));
        discriminate.
Qed.

(** Two symbols named [foo], the global one first: preferring ['t'] finds
    the local one on the second line. *)
Lemma find_symbol_address_resolution_witness :
  ("t" : string) ≠ ""
  ∧ find_symbol_address hex_value
      [["0000000000001000"; "T"; "foo"]; ["0000000000002000"; "t"; "foo"];
       ["0000000000003000"; "t"; "foo"]]
      "foo" (Some "t")
    = inr 0x2000.
Proof.
  split; [discriminate |].
  apply (proj1 (find_symbol_address_resolution hex_value
                  [["0000000000001000"; "T"; "foo"];
                   ["0000000000002000"; "t"; "foo"];
                   ["0000000000003000"; "t"; "foo"]]
                  "foo" "t" ltac:(discriminate))
           [["0000000000001000"; "T"; "foo"]] ["0000000000002000"; "t"; "foo"]
           [["0000000000003000"; "t"; "foo"]] 0x2000).
  - reflexivity.
  - exists "0000000000002000", ["foo"]. repeat split. discriminate.
  - intros l a Hl Hrec. apply list_elem_of_singleton in Hl as ->.
    destruct Hrec as (addr_str & rest & Heq & _). discriminate.
Defined.

(** ** The counter of patched sites *)

Lemma patched_sites_app (l1 l2 : list event) :
  patched_sites (l1 ++ l2) = patched_sites l1 + patched_sites l2.
Proof.
  induction l1 as [| ev l1 IH]; cbn [app patched_sites]; [lia |].
  destruct ev; lia.
Qed.

Lemma patched_sites_nonneg (l : list event) : 0 ≤ patched_sites l.
Proof.
  induction l as [| ev l IH]; cbn [patched_sites]; [lia |]. destruct ev; lia.
Qed.

Lemma patched_sites_mismatch_warning (call_vaddr current_insn old_target : Z) :
  patched_sites (mismatch_warning call_vaddr current_insn old_target) = 0.
Proof.
  unfold mismatch_warning.
  now destruct (current_target call_vaddr current_insn =? old_target).
Qed.

Section KeepsCount.

Lemma keeps_count_ret {A} (a : A) : keeps_count (retM a).
Proof. intros s r s' Hc [= <- <-]. exact Hc. Qed.

Lemma keeps_count_raise {A} (e : exn) : keeps_count (@raise A e).
Proof. intros s r s' Hc [= <- <-]. exact Hc. Qed.

Lemma keeps_count_bind {A B} (m : M A) (k : A → M B) :
  keeps_count m → (∀ a, keeps_count (k a)) → keeps_count (bindM m k).
Proof.
  intros Hm Hk s r s' Hc Hrun. unfold bindM in Hrun.
  destruct (m s) as [[e | a] s1] eqn:Em.
  - injection Hrun as <- <-. exact (Hm s _ s1 Hc Em).
  - exact (Hk a s1 r s' (Hm s _ s1 Hc Em) Hrun).
Qed.

Lemma keeps_count_print (ev : event) :
  patched_sites [ev] = 0 → keeps_count (print ev).
Proof.
  intros Hev s r s' Hc [= <- <-]. unfold counted in *. cbn [total_patches stdout].
  rewrite patched_sites_app. lia.
Qed.

Lemma keeps_count_liftR {A} (r : RuntimeError + A) : keeps_count (liftR r).
Proof.
  destruct r; [apply keeps_count_raise | apply keeps_count_ret].
Qed.

Lemma keeps_count_try {A} (body : M A) (handler : RuntimeError → M A) :
  keeps_count body → (∀ e, keeps_count (handler e)) →
  keeps_count (try_except_RuntimeError body handler).
Proof.
  intros Hb Hh s r s' Hc Hrun. unfold try_except_RuntimeError in Hrun.
  destruct (body s) as [[[e |] | a] s1] eqn:Eb.
  - exact (Hh e s1 r s' (Hb s _ s1 Hc Eb) Hrun).
  - injection Hrun as <- <-. exact (Hb s _ s1 Hc Eb).
  - injection Hrun as <- <-. exact (Hb s _ s1 Hc Eb).
Qed.

Lemma keeps_count_for_each {A} (xs : list A) (body : A → M unit) :
  (∀ x, keeps_count (body x)) → keeps_count (for_each xs body).
Proof.
  intros Hbody. induction xs as [| x xs IH]; cbn [for_each].
  - apply keeps_count_ret.
  - apply keeps_count_bind; [apply Hbody | intros _; exact IH].
Qed.

(** One call site: a "Patched call" line is printed exactly when the
    counter is bumped. *)
Lemma keeps_count_site
  (file_offset_base vaddr_base call_vaddr old_addr new_addr : Z) :
  keeps_count
    (bindM (patch_call_site file_offset_base vaddr_base call_vaddr old_addr new_addr)
       (λ ok : bool, if ok then incr_total_patches else retM tt)).
Proof.
  intros s r s' Hc Hrun. unfold bindM in Hrun. unfold counted in *.
  destruct (patch_call_site_cases file_offset_base vaddr_base call_vaddr
              old_addr new_addr s)
    as [[_ Hr] | [(_ & _ & Hr) | (w & _ & _ & _ & Hcase)]].
  - rewrite Hr in Hrun. injection Hrun as <- <-. cbn [total_patches stdout].
    rewrite patched_sites_app. cbn. lia.
  - rewrite Hr in Hrun. injection Hrun as <- <-. exact Hc.
  - destruct Hcase as [[_ Hr] | [(_ & e & _ & Hr) | (_ & nw & _ & Hr)]];
      rewrite Hr in Hrun; injection Hrun as <- <-; cbn [total_patches stdout];
      rewrite !patched_sites_app, ?patched_sites_mismatch_warning; cbn; lia.
Qed.

Lemma keeps_count_sites (file_offset_base vaddr_base old_addr new_addr : Z)
  (call_sites : list (Z * Z)) :
  keeps_count
    (patch_call_sites file_offset_base vaddr_base call_sites old_addr new_addr).
Proof.
  unfold patch_call_sites. apply keeps_count_for_each.
  intros site. apply keeps_count_site.
Qed.

Lemma keeps_count_replacement (int16 : string → option Z) (t : tools)
  (file_offset_base vaddr_base : Z) (r : string * string) :
  keeps_count (process_replacement int16 t file_offset_base vaddr_base r).
Proof.
  destruct r as [old_func new_func]. unfold process_replacement.
  apply keeps_count_bind; [now apply keeps_count_print | intros _].
  apply keeps_count_try; [| intros e; now apply keeps_count_print].
  apply keeps_count_bind; [apply keeps_count_liftR | intros old_addr].
  apply keeps_count_bind; [apply keeps_count_liftR | intros new_addr].
  apply keeps_count_bind; [now apply keeps_count_print | intros _].
  apply keeps_count_bind; [now apply keeps_count_print | intros _].
  apply keeps_count_bind; [now apply keeps_count_print | intros _].
  destruct (find_call_sites (objdump_lines t) old_addr) as [| site sites].
  - now apply keeps_count_print.
  - apply keeps_count_sites.
Qed.

End KeepsCount.

Lemma patched_sites_text_section_warnings (t : tools) :
  patched_sites (text_section_warnings t) = 0.
Proof.
  unfold text_section_warnings.
  induction (text_section_warned t) as [| line lines IH]; [reflexivity |].
  exact IH.
Qed.

(** When the loop over the replacements is over, for whatever reason, the
    counter is the number of "Patched call" lines. *)
Lemma run_replacements_counted (int16 : string → option Z) (t : tools)
  (elf : list byte) (file_offset_base vaddr_base : Z)
  (replacements : list (string * string)) (r : exn + unit) (s : state) :
  run_replacements int16 t elf file_offset_base vaddr_base replacements = (r, s) →
  counted s.
Proof.
  unfold run_replacements.
  apply (keeps_count_for_each replacements
           (process_replacement int16 t file_offset_base vaddr_base)).
  - intros x. apply keeps_count_replacement.
  - unfold counted. cbn [total_patches stdout].
    now rewrite patched_sites_app, patched_sites_text_section_warnings.
Qed.

(** ** The commit step *)

(** A run that an exception ends writes nothing. *)
Lemma aborted_run_writes_nothing (int16 : string → option Z) (t : tools)
  (elf : list byte) (replacements : list (string * string)) (e : exn) :
  exit (patch_runtime int16 t elf replacements) = inl e →
  written (patch_runtime int16 t elf replacements) = None
  ∧ file_after elf (patch_runtime int16 t elf replacements) = elf.
Proof.
  unfold file_after, patch_runtime, get_text_section_info.
  destruct (text_section t) as [[file_offset_base vaddr_base] |]; [| now intros _].
  destruct (for_each replacements _ _) as [[e' | u] s]; [now intros _ |].
  destruct (0 <? total_patches s); discriminate.
Qed.

(** The commit step: in a run that reaches it, the counter is the number
    of successfully patched sites; the file is written, with the whole
    buffer as the loop left it, if and only if that number is positive; and
    when it is zero nothing is written and the file keeps the bytes it
    had. *)
Lemma commit_iff_patched (int16 : string → option Z) (t : tools)
  (elf : list byte) (replacements : list (string * string))
  (file_offset_base vaddr_base : Z) (s : state) :
  text_section t = Some (file_offset_base, vaddr_base) →
  run_replacements int16 t elf file_offset_base vaddr_base replacements
  = (inr tt, s) →
  total_patches s = patched_sites (stdout s)
  ∧ 0 ≤ total_patches s
  ∧ (is_Some (written (patch_runtime int16 t elf replacements))
     ↔ 0 < total_patches s)
  ∧ (0 < total_patches s →
     written (patch_runtime int16 t elf replacements) = Some (data s)
     ∧ file_after elf (patch_runtime int16 t elf replacements) = data s
     ∧ exit (patch_runtime int16 t elf replacements) = inr true)
  ∧ (total_patches s = 0 →
     written (patch_runtime int16 t elf replacements) = None
     ∧ file_after elf (patch_runtime int16 t elf replacements) = elf
     ∧ exit (patch_runtime int16 t elf replacements) = inr false).
Proof.
  intros Htext Hrun.
  pose proof (run_replacements_counted _ _ _ _ _ _ _ _ Hrun) as Hcount.
  unfold counted in Hcount.
  pose proof (patched_sites_nonneg (stdout s)) as Hnn.
  unfold run_replacements in Hrun.
  unfold file_after, patch_runtime, get_text_section_info.
  rewrite Htext, Hrun.
  split; [exact Hcount |]. split; [lia |].
  destruct (Z.ltb_spec 0 (total_patches s)) as [Hpos | Hzero]; cbn.
  - split; [split; [intros _; exact Hpos | intros _; eauto] |].
    split; [intros _; repeat split | intros H0; lia].
  - split; [split; [intros [d Hd]; discriminate | intros Hpos; lia] |].
    split; [intros Hpos; lia | intros _; repeat split].
Qed.

(** Redirecting [old] to [new] in the scenario image patches two sites
    and writes the buffer; asking for a symbol that does not exist patches
    none and leaves the file alone. *)
Lemma commit_iff_patched_witness :
  (written (patch_runtime hex_value scenario_tools scenario_elf [("old", "new")])
   = Some [x10; x04; x00; x94; x1f; x20; x03; xd5; x0e; x04; x00; x94]
   ∧ exit (patch_runtime hex_value scenario_tools scenario_elf [("old", "new")])
     = inr true)
  ∧ (written (patch_runtime hex_value scenario_tools scenario_elf [("gone", "new")])
     = None
     ∧ file_after scenario_elf
         (patch_runtime hex_value scenario_tools scenario_elf [("gone", "new")])
       = scenario_elf).
Proof.
  split.
  - destruct (commit_iff_patched hex_value scenario_tools scenario_elf
                [("old", "new")] 0 0x1000
                (State [x10; x04; x00; x94; x1f; x20; x03; xd5; x0e; x04; x00; x94] 2
                   [FoundTextSection 0x1000 0; ProcessingReplacement "old" "new";
                    OldFunctionAddress 0x2000; NewFunctionAddress 0x2040;
                    FoundCallSites 2; PatchedCall 0x1000 0 0x2000 0x2040;
                    PatchedCall 0x1008 8 0x2000 0x2040])
                eq_refl eq_refl) as (_ & _ & _ & Hpos & _).
    destruct (Hpos ltac:(cbn; lia)) as (Hw & _ & Hexit).
    split; [exact Hw | exact Hexit].
  - destruct (commit_iff_patched hex_value scenario_tools scenario_elf
                [("gone", "new")] 0 0x1000
                (State scenario_elf 0
                   [FoundTextSection 0x1000 0; ProcessingReplacement "gone" "new";
                    ErrorRuntime (CouldNotFindSymbol "gone")])
                eq_refl eq_refl) as (_ & _ & _ & _ & Hzero).
    destruct (Hzero eq_refl) as (Hw & Hfile & _).
    split; [exact Hw | exact Hfile].
Defined.

(** C5 (commit): the claim is that the file is rewritten if and only if
    the total of patched sites is positive.  In the six-byte file the site
    at [0x1000] is patched and counted, then the site at [0x1004], whose
    word runs past the end of the buffer, raises [struct.error]; the run
    ends before the commit step with the counter at 1 and the file not
    written. *)
Theorem patched_site_not_committed_example :
  run_replacements hex_value short_last_tools short_elf 0 0x1000 [("old", "new")]
  = (inl Raise_struct_error,
     State [x10; x04; x00; x94; xff; x03] 1
       [FoundTextSection 0x1000 0; ProcessingReplacement "old" "new";
        OldFunctionAddress 0x2000; NewFunctionAddress 0x2040; FoundCallSites 2;
        PatchedCall 0x1000 0 0x2000 0x2040])
  ∧ patch_runtime hex_value short_last_tools short_elf [("old", "new")]
    = Run (inl Raise_struct_error) None
        [FoundTextSection 0x1000 0; ProcessingReplacement "old" "new";
         OldFunctionAddress 0x2000; NewFunctionAddress 0x2040; FoundCallSites 2;
         PatchedCall 0x1000 0 0x2000 0x2040]
  ∧ file_after short_elf
      (patch_runtime hex_value short_last_tools short_elf [("old", "new")])
    = short_elf.
Proof. split; [reflexivity |]. split; reflexivity. Qed.

(** ** The scenarios of the specification, run on the scenario image *)

(** Scenario A: the call at [0x1000] to [old] at [0x2000] is re-encoded
    with offset [0x1040]. *)
Example scenario_A :
  encode_bl_instruction 0x1000 0x2040 = inr 0x94000410
  ∧ written (patch_runtime hex_value scenario_tools scenario_elf [("old", "new")])
    = Some [x10; x04; x00; x94; x1f; x20; x03; xd5; x0e; x04; x00; x94].
Proof. split; reflexivity. Qed.

(** Scenario B: the symbol does not exist; the replacement is given up,
    the next one is processed. *)
Example scenario_B :
  patch_runtime hex_value scenario_tools scenario_elf
    [("gone", "new"); ("old", "new")]
  = Run (inr true)
      (Some [x10; x04; x00; x94; x1f; x20; x03; xd5; x0e; x04; x00; x94])
      [FoundTextSection 0x1000 0; ProcessingReplacement "gone" "new";
       ErrorRuntime (CouldNotFindSymbol "gone");
       ProcessingReplacement "old" "new"; OldFunctionAddress 0x2000;
       NewFunctionAddress 0x2040; FoundCallSites 2;
       PatchedCall 0x1000 0 0x2000 0x2040; PatchedCall 0x1008 8 0x2000 0x2040;
       SuccessfullyPatched 2].
Proof. reflexivity. Qed.

(** Scenario D: [far] is more than 128 MiB away; both sites are skipped
    with an error and nothing is written. *)
Example scenario_D :
  patch_runtime hex_value scenario_tools scenario_elf [("old", "far")]
  = Run (inr false) None
      [FoundTextSection 0x1000 0; ProcessingReplacement "old" "far";
       OldFunctionAddress 0x2000; NewFunctionAddress 0x8002000;
       FoundCallSites 2;
       ErrorCannotEncode 0x1000 (OffsetOutOfRange 0x8001000);
       ErrorCannotEncode 0x1008 (OffsetOutOfRange 0x8000ff8);
       NoPatchesApplied].
Proof. reflexivity. Qed.

(** Self-patch of forward calls: both sites are rewritten and the file is
    written back with the bytes it had. *)
Example scenario_self_patch :
  written (patch_runtime hex_value scenario_tools scenario_elf [("old", "old")])
  = Some scenario_elf.
Proof. reflexivity. Qed.

(** Self-patch of the backward call quoted in [find_call_sites]: the site
    is rewritten with the bytes it had, after a mismatch warning that names
    [0x40026ecf0] as the decoded target. *)
Example scenario_self_patch_backward :
  patch_call_site 0 0x27c2a4 0x27c2a4 0x26ecf0 0x26ecf0
    (State [x93; xca; xff; x97] 0 [])
  = (inr true,
     State [x93; xca; xff; x97] 0
       [WarnTargetMismatch 0x27c2a4 0x40026ecf0 0x26ecf0;
        PatchedCall 0x27c2a4 0 0x26ecf0 0x26ecf0]).
Proof. reflexivity. Qed.

(** * Further properties of the encoder and the decode rule *)

(** X1 (when the encoder succeeds): [encode_bl_instruction] returns a word
    exactly when the offset is a multiple of 4 between [-2^27] and
    [2^27 - 1], and the word is then the opcode [0x94000000] plus the word
    offset reduced modulo [2^26]. *)
Theorem encode_succeeds_iff (pc target w : Z) :
  encode_bl_instruction pc target = inr w
  ↔ (target - pc) mod 4 = 0
    ∧ - 2 ^ 27 ≤ target - pc < 2 ^ 27
    ∧ w = 0x94000000 + ((target - pc) / 4) mod 2 ^ 26.
Proof.
  split.
  - intros He. apply encode_bl_instruction_inr in He as (Hal & Hrg & ->).
    repeat split; lia.
  - intros (Hal & Hrg & ->). apply encode_bl_instruction_ok; [assumption | lia].
Qed.

(** X2 (encoded words are calls): every word the encoder returns passes
    the opcode-class test of [patch_call_site] and is an unsigned 32-bit
    value, so it can be packed with ['<I']. *)
Theorem encode_word_is_call (pc target w : Z) :
  encode_bl_instruction pc target = inr w →
  is_bl w = true ∧ 0 ≤ w < 2 ^ 32
  ∧ ∀ d offset, 0 ≤ offset → offset + 4 ≤ Z.of_nat (length d) →
      is_Some (pack_into d offset w).
Proof.
  intros He. destruct (encode_bl_instruction_is_bl pc target w He) as [Hbl Hr].
  split; [exact Hbl |]. split; [lia |].
  intros d offset H0 H4. rewrite pack_into_fits by lia. eauto.
Qed.

Lemma encode_word_is_call_witness :
  encode_bl_instruction 0x27c2a4 0x26ecf0 = inr 0x97ffca93
  ∧ is_bl 0x97ffca93 = true ∧ 0 ≤ 0x97ffca93 < 2 ^ 32.
Proof.
  split; [reflexivity |].
  destruct (encode_word_is_call 0x27c2a4 0x26ecf0 0x97ffca93 eq_refl)
    as (Hbl & Hr & _).
  split; [exact Hbl | exact Hr].
Defined.

(** X3 (distinct targets, distinct words): from one instruction address,
    two targets that encode to the same word are the same target. *)
Theorem encode_injective (pc target1 target2 w : Z) :
  encode_bl_instruction pc target1 = inr w →
  encode_bl_instruction pc target2 = inr w →
  target1 = target2.
Proof.
  intros H1 H2.
  apply encode_bl_instruction_inr in H1 as (Hal1 & Hrg1 & Hw1).
  apply encode_bl_instruction_inr in H2 as (Hal2 & Hrg2 & Hw2).
  pose proof (Z.div_mod (target1 - pc) 4 ltac:(lia)) as D1.
  pose proof (Z.div_mod (target2 - pc) 4 ltac:(lia)) as D2.
  assert (((target1 - pc) / 4) mod 2 ^ 26 = ((target2 - pc) / 4) mod 2 ^ 26)
    as Hmod by lia.
  pose proof (Z.div_mod ((target1 - pc) / 4) (2 ^ 26) ltac:(lia)) as E1.
  pose proof (Z.div_mod ((target2 - pc) / 4) (2 ^ 26) ltac:(lia)) as E2.
  pose proof (Z.mod_pos_bound ((target1 - pc) / 4) (2 ^ 26) ltac:(lia)) as B1.
  assert ((target1 - pc) / 4 / 2 ^ 26 = (target2 - pc) / 4 / 2 ^ 26) as Hq by lia.
  lia.
Qed.

Lemma encode_injective_witness :
  encode_bl_instruction 0x1000 (0x1000 + 0x1040) = inr 0x94000410
  ∧ encode_bl_instruction 0x1000 0x2040 = inr 0x94000410
  ∧ 0x1000 + 0x1040 = 0x2040.
Proof.
  split; [reflexivity |]. split; [reflexivity |].
  apply (encode_injective 0x1000 (0x1000 + 0x1040) 0x2040 0x94000410);
    reflexivity.
Defined.

(** X4 (position independence): moving the instruction and its target by
    the same distance does not change the result of the encoder, word or
    error. *)
Theorem encode_position_independent (pc target d : Z) :
  encode_bl_instruction (pc + d) (target + d) = encode_bl_instruction pc target.
Proof.
  unfold encode_bl_instruction.
  replace (target + d - (pc + d)) with (target - pc) by lia. reflexivity.
Qed.

(** X5 (decoding an encoded call): the decode rule of [patch_call_site]
    gives the target back for a forward call and an address [2^34] above
    the target for a backward call. *)
Theorem decode_of_encode (pc target w : Z) :
  encode_bl_instruction pc target = inr w →
  (0 ≤ target - pc → current_target pc w = target)
  ∧ (target - pc < 0 → current_target pc w = target + 2 ^ 34).
Proof.
  intros He. split; intros Hs.
  - now apply current_target_encode_forward.
  - now apply current_target_encode_backward.
Qed.

Lemma decode_of_encode_witness :
  encode_bl_instruction 0x1000 0x2040 = inr 0x94000410
  ∧ current_target 0x1000 0x94000410 = 0x2040
  ∧ encode_bl_instruction 0x1000 0xffc = inr 0x97ffffff
  ∧ current_target 0x1000 0x97ffffff = 0xffc + 2 ^ 34.
Proof.
  split; [reflexivity |].
  split; [apply (decode_of_encode 0x1000 0x2040 0x94000410 eq_refl); lia |].
  split; [reflexivity |].
  apply (decode_of_encode 0x1000 0xffc 0x97ffffff eq_refl). lia.
Defined.

Lemma current_target_lower_bound (call_vaddr current_insn : Z) :
  call_vaddr ≤ current_target call_vaddr current_insn.
Proof.
  unfold current_target, sign_extend_imm26. cbv zeta.
  rewrite land_imm26.
  pose proof (Z.mod_pos_bound current_insn (2 ^ 26) ltac:(lia)) as Hm.
  destruct (negb (Z.land (current_insn mod 2 ^ 26) 0x2000000 =? 0)).
  - change 0xfc000000 with (63 * 2 ^ 26). rewrite lor_low_high by lia.
    rewrite Z.shiftl_mul_pow2 by lia. lia.
  - rewrite Z.shiftl_mul_pow2 by lia. lia.
Qed.

(** X6 (the decode rule never points backward): whatever the word, the
    address [patch_call_site] decodes from it is not below the address of
    the instruction. *)
Theorem decoded_target_not_below_call (call_vaddr current_insn : Z) :
  call_vaddr ≤ current_target call_vaddr current_insn.
Proof. apply current_target_lower_bound. Qed.

(** * Further properties of [patch_call_site] *)

(** X7 (the only exception): [patch_call_site] raises exactly when the
    offset passes the bounds check but fewer than four bytes are left in
    the buffer; the exception is [struct.error], and nothing has been
    printed or written by then. *)
Theorem patch_call_site_raises_iff
  (file_offset_base vaddr_base call_vaddr old_target new_target : Z)
  (s s' : state) (e : exn) :
  patch_call_site file_offset_base vaddr_base call_vaddr old_target new_target s
  = (inl e, s')
  ↔ 0 ≤ file_offset_base + (call_vaddr - vaddr_base) < Z.of_nat (length (data s))
    ∧ Z.of_nat (length (data s)) < file_offset_base + (call_vaddr - vaddr_base) + 4
    ∧ e = Raise_struct_error ∧ s' = s.
Proof.
  split.
  - intros Hrun.
    destruct (patch_call_site_cases file_offset_base vaddr_base call_vaddr
                old_target new_target s)
      as [[_ Hr] | [(Hin & Hshort & Hr) | (w & _ & _ & _ & Hcase)]].
    + rewrite Hr in Hrun. discriminate.
    + rewrite Hr in Hrun. injection Hrun as <- <-. repeat split; lia.
    + destruct Hcase as [[_ Hr] | [(_ & e' & _ & Hr) | (_ & nw & _ & Hr)]];
        rewrite Hr in Hrun; discriminate.
  - intros (Hin & Hshort & -> & ->).
    now apply patch_call_site_short_read.
Qed.

(** X8 (when a site is patched): [patch_call_site] returns [True] exactly
    when the four bytes at the site lie inside the buffer, hold a word that
    passes the opcode-class test, and the offset from the site to the new
    target is a multiple of 4 in range.  The expected old target plays no
    part. *)
Theorem patch_call_site_true_iff
  (file_offset_base vaddr_base call_vaddr old_target new_target : Z) (s : state) :
  (∃ s', patch_call_site file_offset_base vaddr_base call_vaddr
           old_target new_target s = (inr true, s'))
  ↔ ∃ current_insn,
      0 ≤ file_offset_base + (call_vaddr - vaddr_base)
      ∧ file_offset_base + (call_vaddr - vaddr_base) + 4 ≤ Z.of_nat (length (data s))
      ∧ unpack_from (data s) (file_offset_base + (call_vaddr - vaddr_base))
        = Some current_insn
      ∧ is_bl current_insn = true
      ∧ (new_target - call_vaddr) mod 4 = 0
      ∧ - 2 ^ 27 ≤ new_target - call_vaddr < 2 ^ 27.
Proof.
  split.
  - intros [s' Hrun].
    destruct (patch_call_site_cases file_offset_base vaddr_base call_vaddr
                old_target new_target s)
      as [[_ Hr] | [(_ & _ & Hr) | (w & H0 & H4 & Hw & Hcase)]].
    + rewrite Hr in Hrun. discriminate.
    + rewrite Hr in Hrun. discriminate.
    + destruct Hcase as [[_ Hr] | [(_ & e' & _ & Hr) | (Hbl & nw & Henc & Hr)]];
        rewrite Hr in Hrun; try discriminate.
      apply encode_bl_instruction_inr in Henc as (Hal & Hrg & _).
      exists w. repeat split; try assumption; lia.
  - intros (w & H0 & H4 & Hw & Hbl & Hal & Hrg).
    eexists.
    apply patch_call_site_patched with (current_insn := w); try assumption.
    + lia.
    + apply encode_bl_instruction_ok; [assumption | lia].
Qed.

(** X9 (the expected target only changes the output): two calls that
    differ in [old_target] alone return the same value, or raise alike,
    and leave the same buffer and the same counter. *)
Theorem old_target_only_affects_output
  (file_offset_base vaddr_base call_vaddr old_target1 old_target2 new_target : Z)
  (s : state) :
  let r1 := patch_call_site file_offset_base vaddr_base call_vaddr
              old_target1 new_target s in
  let r2 := patch_call_site file_offset_base vaddr_base call_vaddr
              old_target2 new_target s in
  fst r1 = fst r2 ∧ data (snd r1) = data (snd r2)
  ∧ total_patches (snd r1) = total_patches (snd r2).
Proof.
  cbv zeta.
  destruct (patch_call_site_cases file_offset_base vaddr_base call_vaddr
              old_target1 new_target s)
    as [[Hoob Hr] | [(Hin & Hshort & Hr) | (w & H0 & H4 & Hw & Hcase)]].
  - rewrite Hr, (patch_call_site_invalid_offset _ _ _ old_target2 _ _ Hoob).
    repeat split.
  - rewrite Hr, (patch_call_site_short_read _ _ _ old_target2 _ _ Hin Hshort).
    repeat split.
  - assert (0 ≤ file_offset_base + (call_vaddr - vaddr_base)
            < Z.of_nat (length (data s))) as Hin by lia.
    destruct Hcase as [[Hbl Hr] | [(Hbl & e & Henc & Hr) | (Hbl & nw & Henc & Hr)]];
      rewrite Hr.
    + rewrite (patch_call_site_not_bl _ _ _ old_target2 _ _ w Hin Hw Hbl).
      repeat split.
    + rewrite (patch_call_site_cannot_encode _ _ _ old_target2 _ _ w Hin Hw e
                 Hbl Henc).
      repeat split.
    + rewrite (patch_call_site_patched _ _ _ old_target2 _ _ w Hin Hw nw
                 Hbl Henc).
      repeat split.
Qed.

(** X10 (patching twice): after a site has been patched, patching it
    again towards the same target succeeds and leaves the buffer as the
    first patch left it. *)
Theorem patch_call_site_idempotent
  (file_offset_base vaddr_base call_vaddr old_target new_target : Z)
  (s s' : state) :
  patch_call_site file_offset_base vaddr_base call_vaddr old_target new_target s
  = (inr true, s') →
  ∃ s'',
    patch_call_site file_offset_base vaddr_base call_vaddr old_target new_target s'
    = (inr true, s'')
    ∧ data s'' = data s'.
Proof.
  intros Hrun.
  destruct (patch_call_site_cases file_offset_base vaddr_base call_vaddr
              old_target new_target s)
    as [[_ Hr] | [(_ & _ & Hr) | (w & H0 & H4 & Hw & Hcase)]].
  - rewrite Hr in Hrun. discriminate.
  - rewrite Hr in Hrun. discriminate.
  - destruct Hcase as [[_ Hr] | [(_ & e' & _ & Hr) | (Hbl & nw & Henc & Hr)]];
      rewrite Hr in Hrun; try discriminate.
    injection Hrun as <-.
    destruct (encode_bl_instruction_is_bl _ _ _ Henc) as [Hbl' Hrange].
    set (fo := file_offset_base + (call_vaddr - vaddr_base)) in *.
    set (d' := write_le32 (data s) (Z.to_nat fo) nw).
    assert (read_le32 d' (Z.to_nat fo) = Some nw) as Hread
      by (apply read_le32_write; lia).
    assert (unpack_from d' fo = Some nw) as Hw'.
    { destruct (unpack_from_fits d' fo) as [-> _];
        [lia | unfold d'; rewrite write_le32_length; lia | exact Hread]. }
    assert (0 ≤ fo < Z.of_nat (length d')) as Hin'
      by (unfold d'; rewrite write_le32_length; lia).
    eexists. split.
    + exact (patch_call_site_patched file_offset_base vaddr_base call_vaddr
               old_target new_target (State d' _ _) nw Hin' Hw' nw Hbl' Henc).
    + cbn [data]. now apply write_le32_read.
Qed.

Lemma patch_call_site_idempotent_witness :
  patch_call_site 0 0x1000 0x1000 0x2000 0x2040 (State [x00; x04; x00; x94] 0 [])
  = (inr true, State [x10; x04; x00; x94] 0 [PatchedCall 0x1000 0 0x2000 0x2040])
  ∧ ∃ s'',
      patch_call_site 0 0x1000 0x1000 0x2000 0x2040
        (State [x10; x04; x00; x94] 0 [PatchedCall 0x1000 0 0x2000 0x2040])
      = (inr true, s'')
      ∧ data s'' = [x10; x04; x00; x94].
Proof.
  split; [reflexivity |].
  apply (patch_call_site_idempotent 0 0x1000 0x1000 0x2000 0x2040
           (State [x00; x04; x00; x94] 0 [])
           (State [x10; x04; x00; x94] 0 [PatchedCall 0x1000 0 0x2000 0x2040])).
  reflexivity.
Defined.

(** What [patch_call_site] leaves alone, however it ends. *)
Lemma patch_call_site_steps
  (file_offset_base vaddr_base call_vaddr old_target new_target : Z)
  (s s' : state) (r : exn + bool) :
  patch_call_site file_offset_base vaddr_base call_vaddr old_target new_target s
  = (r, s') →
  length (data s') = length (data s)
  ∧ total_patches s' = total_patches s
  ∧ stdout s `prefix_of` stdout s'
  ∧ ∀ j : nat,
      Z.of_nat j < file_offset_base + (call_vaddr - vaddr_base)
      ∨ file_offset_base + (call_vaddr - vaddr_base) + 4 ≤ Z.of_nat j →
      data s' !! j = data s !! j.
Proof.
  intros Hrun.
  destruct (patch_call_site_cases file_offset_base vaddr_base call_vaddr
              old_target new_target s)
    as [[_ Hr] | [(_ & _ & Hr) | (w & H0 & H4 & Hw & Hcase)]].
  - rewrite Hr in Hrun. injection Hrun as <- <-. cbn.
    repeat split; try reflexivity. now apply prefix_app_r.
  - rewrite Hr in Hrun. injection Hrun as <- <-. repeat split; reflexivity.
  - destruct Hcase as [[_ Hr] | [(_ & e' & _ & Hr) | (_ & nw & _ & Hr)]];
      rewrite Hr in Hrun; injection Hrun as <- <-; cbn.
    + repeat split; try reflexivity. now apply prefix_app_r.
    + repeat split; try reflexivity. now apply prefix_app_r.
    + split; [apply write_le32_length |]. split; [reflexivity |].
      split; [now apply prefix_app_r |].
      intros j Hj. apply write_le32_lookup_other. lia.
Qed.

(** X11 (what a call leaves alone): however [patch_call_site] ends, the
    buffer keeps its length, the counter its value, and what was printed
    before is still the beginning of the output. *)
Theorem patch_call_site_frame
  (file_offset_base vaddr_base call_vaddr old_target new_target : Z) (s : state) :
  let s' := snd (patch_call_site file_offset_base vaddr_base call_vaddr
                   old_target new_target s) in
  length (data s') = length (data s)
  ∧ total_patches s' = total_patches s
  ∧ stdout s `prefix_of` stdout s'.
Proof.
  cbv zeta.
  destruct (patch_call_site file_offset_base vaddr_base call_vaddr
              old_target new_target s) as [r s'] eqn:Hrun.
  destruct (patch_call_site_steps _ _ _ _ _ _ _ _ Hrun) as (Hl & Ht & Hp & _).
  cbn [snd]. repeat split; assumption.
Qed.

(** X12 (a backward expectation is always reported): when the expected
    old target lies below the call site, a patched site is always
    accompanied by the mismatch warning, whatever word it held. *)
Theorem backward_site_always_warned
  (file_offset_base vaddr_base call_vaddr old_target new_target : Z)
  (s s' : state) :
  old_target < call_vaddr →
  patch_call_site file_offset_base vaddr_base call_vaddr old_target new_target s
  = (inr true, s') →
  ∃ decoded,
    stdout s'
    = stdout s
      ++ [WarnTargetMismatch call_vaddr decoded old_target;
          PatchedCall call_vaddr (file_offset_base + (call_vaddr - vaddr_base))
            old_target new_target].
Proof.
  intros Hback Hrun.
  destruct (patch_call_site_cases file_offset_base vaddr_base call_vaddr
              old_target new_target s)
    as [[_ Hr] | [(_ & _ & Hr) | (w & H0 & H4 & Hw & Hcase)]].
  - rewrite Hr in Hrun. discriminate.
  - rewrite Hr in Hrun. discriminate.
  - destruct Hcase as [[_ Hr] | [(_ & e' & _ & Hr) | (_ & nw & _ & Hr)]];
      rewrite Hr in Hrun; try discriminate.
    injection Hrun as <-. cbn [stdout].
    exists (current_target call_vaddr w). unfold mismatch_warning.
    pose proof (current_target_lower_bound call_vaddr w) as Hlow.
    destruct (Z.eqb_spec (current_target call_vaddr w) old_target); [lia |].
    reflexivity.
Qed.

Lemma backward_site_always_warned_witness :
  0x26ecf0 < 0x27c2a4
  ∧ ∃ decoded,
      stdout (State [x93; xca; xff; x97] 0
                [WarnTargetMismatch 0x27c2a4 0x40026ecf0 0x26ecf0;
                 PatchedCall 0x27c2a4 0 0x26ecf0 0x26ecf0])
      = stdout (State [x93; xca; xff; x97] 0 [])
        ++ [WarnTargetMismatch 0x27c2a4 decoded 0x26ecf0;
            PatchedCall 0x27c2a4 (0 + (0x27c2a4 - 0x27c2a4)) 0x26ecf0 0x26ecf0].
Proof.
  split; [lia |].
  apply (backward_site_always_warned 0 0x27c2a4 0x27c2a4 0x26ecf0 0x26ecf0
           (State [x93; xca; xff; x97] 0 [])
           (State [x93; xca; xff; x97] 0
              [WarnTargetMismatch 0x27c2a4 0x40026ecf0 0x26ecf0;
               PatchedCall 0x27c2a4 0 0x26ecf0 0x26ecf0])).
  - lia.
  - reflexivity.
Defined.

(** * Further properties of the scanner and the resolver *)

(** X13 (what the scanner returns): a pair [(call_addr, insn)] is among
    the call sites found for an address exactly when the disassembly has a
    matched line with that address, that word and the requested address as
    target. *)
Theorem find_call_sites_elem (objdump_lines : list (option (Z * Z * Z)))
  (target_addr call_addr insn : Z) :
  (call_addr, insn) ∈ find_call_sites objdump_lines target_addr
  ↔ Some (call_addr, insn, target_addr) ∈ objdump_lines.
Proof.
  unfold find_call_sites. rewrite list_elem_of_omap. split.
  - intros ([[[c i] tg] |] & Hin & Hsome); [| discriminate].
    destruct (Z.eqb_spec tg target_addr) as [-> | _]; [| discriminate].
    now injection Hsome as -> ->.
  - intros Hin. exists (Some (call_addr, insn, target_addr)).
    split; [exact Hin |]. now rewrite Z.eqb_refl.
Qed.

(** X14 (the disassembled word is not used): the loop over the call sites
    reads each word from the buffer; two lists of sites with the same
    addresses in the same order are patched alike, whatever words the
    disassembly showed. *)
Theorem disassembled_word_is_ignored
  (file_offset_base vaddr_base old_addr new_addr : Z)
  (sites1 sites2 : list (Z * Z)) (s : state) :
  map fst sites1 = map fst sites2 →
  patch_call_sites file_offset_base vaddr_base sites1 old_addr new_addr s
  = patch_call_sites file_offset_base vaddr_base sites2 old_addr new_addr s.
Proof.
  revert sites2 s. induction sites1 as [| site1 sites1 IH];
    intros [| site2 sites2] s Hmap; try discriminate; [reflexivity |].
  cbn [map] in Hmap. injection Hmap as Hfst Hrest.
  rewrite !patch_call_sites_cons, Hfst.
  destruct (patch_call_site _ _ _ _ _ s) as [[e | [|]] s1];
    [reflexivity | now apply IH | now apply IH].
Qed.

Lemma disassembled_word_is_ignored_witness :
  map fst [(0x1000, 0x94000400); (0x1008, 0x940003fe)]
  = map fst [(0x1000, 0); (0x1008, 0xd503201f)]
  ∧ patch_call_sites 0 0x1000 [(0x1000, 0x94000400); (0x1008, 0x940003fe)]
      0x2000 0x2040 (State scenario_elf 0 [])
    = patch_call_sites 0 0x1000 [(0x1000, 0); (0x1008, 0xd503201f)]
        0x2000 0x2040 (State scenario_elf 0 []).
Proof.
  split; [reflexivity |].
  apply (disassembled_word_is_ignored 0 0x1000 0x2000 0x2040
           [(0x1000, 0x94000400); (0x1008, 0x940003fe)]
           [(0x1000, 0); (0x1008, 0xd503201f)] (State scenario_elf 0 [])).
  reflexivity.
Defined.

(** X15 (the type-letter test): [sym_type in 'Tt'] is a substring test, so
    it accepts the empty string and the two-letter string ["Tt"] besides
    the letters ["T"] and ["t"], and nothing else. *)
Theorem str_in_Tt (sym_type : string) :
  str_in sym_type "Tt" = true
  ↔ sym_type = "" ∨ sym_type = "T" ∨ sym_type = "t" ∨ sym_type = "Tt".
Proof.
  split.
  - destruct sym_type as [| c1 [| c2 rest]].
    + now left.
    + intros H. apply str_in_Tt_letter in H. tauto.
    + cbn. intros H. right. right. right.
      destruct (Ascii.ascii_dec c1 "T"%char) as [-> | _].
      * destruct (Ascii.ascii_dec c2 "t"%char) as [-> | _].
        -- destruct rest; [reflexivity |].
           destruct (Ascii.ascii_dec "T"%char "t"%char); discriminate.
        -- destruct (Ascii.ascii_dec "T"%char "t"%char); discriminate.
      * destruct (Ascii.ascii_dec c1 "t"%char); discriminate.
  - intros [-> | [-> | [-> | ->]]]; reflexivity.
Qed.

Section ResolverMore.

Variable int16 : string → option Z.

(** The resolver looks at the lines only through the list of matches. *)
Lemma find_symbol_address_matches (lines1 lines2 : list (list string))
  (symbol_name : string) (prefer_type : option string) :
  nm_matches int16 lines1 symbol_name = nm_matches int16 lines2 symbol_name →
  find_symbol_address int16 lines1 symbol_name prefer_type
  = find_symbol_address int16 lines2 symbol_name prefer_type.
Proof. unfold find_symbol_address. cbv zeta. now intros ->. Qed.

Lemma nm_matches_elem (lines : list (list string)) (symbol_name : string)
  (m : Z * string) :
  m ∈ nm_matches int16 lines symbol_name →
  ∃ parts, parts ∈ lines ∧ symbol_record int16 symbol_name parts (fst m) (snd m).
Proof.
  unfold nm_matches. intros Hin.
  apply list_elem_of_omap in Hin as (parts & Hparts & Hmatch).
  exists parts. split; [exact Hparts |].
  destruct m as [a ty]. now apply nm_match_record.
Qed.

(** X16 (no preference): without a preferred type, [None] or the empty
    string, the resolver returns the address of the first line that is a
    record of the name. *)
Theorem find_symbol_address_no_preference
  (before after : list (list string)) (parts : list string)
  (symbol_name sym_type : string) (addr : Z) (prefer_type : option string) :
  prefer_type = None ∨ prefer_type = Some "" →
  symbol_record int16 symbol_name parts addr sym_type →
  (∀ l a ty, l ∈ before → ¬ symbol_record int16 symbol_name l a ty) →
  find_symbol_address int16 (before ++ parts :: after) symbol_name prefer_type
  = inr addr.
Proof.
  intros Hpref Hrec Hbefore.
  apply nm_match_record in Hrec.
  unfold find_symbol_address. cbv zeta.
  rewrite (nm_matches_split int16 before after parts symbol_name _ Hrec).
  assert (nm_matches int16 before symbol_name = []) as ->.
  { apply nm_matches_none. intros l Hl.
    destruct (nm_match int16 symbol_name l) as [[a ty] |] eqn:El; [| reflexivity].
    apply nm_match_record in El. now destruct (Hbefore l a ty Hl). }
  cbn [app]. now destruct Hpref as [-> | ->].
Qed.

(** X17 (the address comes from the table): an address the resolver
    returns, with or without a preference, is the address of some line
    that is a record of the requested name. *)
Theorem find_symbol_address_sound (lines : list (list string))
  (symbol_name : string) (prefer_type : option string) (addr : Z) :
  find_symbol_address int16 lines symbol_name prefer_type = inr addr →
  ∃ parts sym_type,
    parts ∈ lines ∧ symbol_record int16 symbol_name parts addr sym_type.
Proof.
  unfold find_symbol_address. cbv zeta.
  destruct (nm_matches int16 lines symbol_name) as [| first ms] eqn:Ems;
    [discriminate |].
  assert (first ∈ nm_matches int16 lines symbol_name) as Hfirst
    by (rewrite Ems; left).
  intros Hres.
  assert (∃ m, m ∈ nm_matches int16 lines symbol_name ∧ fst m = addr)
    as (m & Hm & <-).
  { destruct (truthy prefer_type).
    - destruct (List.find (has_type prefer_type) (first :: ms)) as [m |] eqn:Ef.
      + injection Hres as <-. exists m. split; [| reflexivity].
        apply List.find_some in Ef as [Hin _].
        rewrite Ems. now apply list_elem_of_In.
      + injection Hres as <-. now exists first.
    - injection Hres as <-. now exists first. }
  destruct (nm_matches_elem lines symbol_name m Hm) as (parts & Hparts & Hrec).
  now exists parts, (snd m).
Qed.

(** X18 (other lines do not matter): a line that is not a record of the
    requested name, because it is too short, names another symbol, has
    another type letter or an unreadable address, can be dropped without
    changing what the resolver returns or raises. *)
Theorem find_symbol_address_ignores_other_lines
  (before after : list (list string)) (other : list string)
  (symbol_name : string) (prefer_type : option string) :
  (∀ a ty, ¬ symbol_record int16 symbol_name other a ty) →
  find_symbol_address int16 (before ++ other :: after) symbol_name prefer_type
  = find_symbol_address int16 (before ++ after) symbol_name prefer_type.
Proof.
  intros Hother. apply find_symbol_address_matches.
  unfold nm_matches. rewrite !omap_app.
  destruct (nm_match int16 symbol_name other) as [[a ty] |] eqn:El.
  - apply nm_match_record in El. now destruct (Hother a ty).
  - cbn. now rewrite El.
Qed.

End ResolverMore.

Lemma find_symbol_address_no_preference_witness :
  find_symbol_address hex_value
    ([["U"; "foo"]]
     ++ ["0000000000001000"; "T"; "foo"] :: [["0000000000002000"; "t"; "foo"]])
    "foo" None
  = inr 0x1000.
Proof.
  apply (find_symbol_address_no_preference hex_value [["U"; "foo"]]
           [["0000000000002000"; "t"; "foo"]] ["0000000000001000"; "T"; "foo"]
           "foo" "T" 0x1000 None).
  - now left.
  - exists "0000000000001000", ["foo"]. repeat split. discriminate.
  - intros l a ty Hl Hrec. apply list_elem_of_singleton in Hl as ->.
    destruct Hrec as (addr_str & rest & Heq & Hne & _).
    injection Heq as _ _ <-. contradiction.
Defined.

Lemma find_symbol_address_sound_witness :
  ∃ parts sym_type,
    parts ∈ [["0000000000001000"; "T"; "foo"]; ["0000000000002000"; "t"; "foo"]]
    ∧ symbol_record hex_value "foo" parts 0x2000 sym_type.
Proof.
  apply (find_symbol_address_sound hex_value
           [["0000000000001000"; "T"; "foo"]; ["0000000000002000"; "t"; "foo"]]
           "foo" (Some "t") 0x2000).
  reflexivity.
Defined.

Lemma find_symbol_address_ignores_other_lines_witness :
  find_symbol_address hex_value
    ([["0000000000001000"; "T"; "foo"]]
     ++ ["0000000000003000"; "D"; "foo"] :: [["0000000000002000"; "t"; "foo"]])
    "foo" (Some "t")
  = find_symbol_address hex_value
      ([["0000000000001000"; "T"; "foo"]] ++ [["0000000000002000"; "t"; "foo"]])
      "foo" (Some "t").
Proof.
  apply (find_symbol_address_ignores_other_lines hex_value
           [["0000000000001000"; "T"; "foo"]] [["0000000000002000"; "t"; "foo"]]
           ["0000000000003000"; "D"; "foo"] "foo" (Some "t")).
  intros a ty (addr_str & rest & Heq & _ & _ & Hty & _).
  injection Heq as _ <- _. discriminate.
Defined.

(** * Further properties of a run *)

(** ** Buffer properties kept by the monadic steps *)

Section KeepsData.

Variable D : list byte → Prop.

Lemma keeps_data_ret {A} (E : exn → Prop) (a : A) : keeps_data D E (retM a).
Proof. intros s r s' HD [= <- <-]. split; [exact HD | discriminate]. Qed.

Lemma keeps_data_print (E : exn → Prop) (ev : event) : keeps_data D E (print ev).
Proof. intros s r s' HD [= <- <-]. split; [exact HD | discriminate]. Qed.

Lemma keeps_data_incr (E : exn → Prop) : keeps_data D E incr_total_patches.
Proof. intros s r s' HD [= <- <-]. split; [exact HD | discriminate]. Qed.

Lemma keeps_data_liftR {A} (E : exn → Prop) (x : RuntimeError + A) :
  (∀ e, E (Raise_RuntimeError e)) → keeps_data D E (liftR x).
Proof.
  intros HE s r s' HD. destruct x as [e | a]; intros [= <- <-].
  - split; [exact HD |]. intros e' [= <-]. apply HE.
  - split; [exact HD | discriminate].
Qed.

Lemma keeps_data_weaken {A} (E E' : exn → Prop) (m : M A) :
  (∀ e, E e → E' e) → keeps_data D E m → keeps_data D E' m.
Proof.
  intros HE Hm s r s' HD Hrun. destruct (Hm s r s' HD Hrun) as [HD' He].
  split; [exact HD' |]. intros e ->. apply HE. now apply He.
Qed.

Lemma keeps_data_bind {A B} (E : exn → Prop) (m : M A) (k : A → M B) :
  keeps_data D E m → (∀ a, keeps_data D E (k a)) → keeps_data D E (bindM m k).
Proof.
  intros Hm Hk s r s' HD Hrun. unfold bindM in Hrun.
  destruct (m s) as [[e | a] s1] eqn:Em.
  - injection Hrun as <- <-. destruct (Hm s _ s1 HD Em) as [HD1 He].
    split; [exact HD1 |]. intros e' [= <-]. now apply He.
  - destruct (Hm s _ s1 HD Em) as [HD1 _]. exact (Hk a s1 r s' HD1 Hrun).
Qed.

(** Inside a [try], [RuntimeError] may be raised on top of what [E]
    allows: the handler takes it. *)
Lemma keeps_data_try {A} (E : exn → Prop) (body : M A)
  (handler : RuntimeError → M A) :
  keeps_data D (λ e, E e ∨ ∃ re, e = Raise_RuntimeError re) body →
  (∀ re, keeps_data D E (handler re)) →
  keeps_data D E (try_except_RuntimeError body handler).
Proof.
  intros Hb Hh s r s' HD Hrun. unfold try_except_RuntimeError in Hrun.
  destruct (body s) as [[[re |] | a] s1] eqn:Eb;
    destruct (Hb s _ s1 HD Eb) as [HD1 He].
  - exact (Hh re s1 r s' HD1 Hrun).
  - injection Hrun as <- <-. split; [exact HD1 |].
    intros e [= <-].
    destruct (He Raise_struct_error eq_refl) as [HE | [re Hre]];
      [exact HE | discriminate].
  - injection Hrun as <- <-. split; [exact HD1 | discriminate].
Qed.

Lemma keeps_data_for_each {A} (E : exn → Prop) (xs : list A) (body : A → M unit) :
  (∀ x, x ∈ xs → keeps_data D E (body x)) → keeps_data D E (for_each xs body).
Proof.
  induction xs as [| x xs IH]; intros Hbody; cbn [for_each].
  - apply keeps_data_ret.
  - apply keeps_data_bind; [apply Hbody; now left | intros _].
    apply IH. intros y Hy. apply Hbody. now right.
Qed.

End KeepsData.

(** The sites found for an address are among the matched lines. *)
Lemma find_call_sites_bl_addresses (objdump_lines : list (option (Z * Z * Z)))
  (target_addr : Z) (site : Z * Z) :
  site ∈ find_call_sites objdump_lines target_addr →
  fst site ∈ bl_addresses objdump_lines.
Proof.
  unfold find_call_sites, bl_addresses. rewrite !list_elem_of_omap.
  intros ([[[c i] tg] |] & Hin & Hsome); [| discriminate].
  destruct (tg =? target_addr); [| discriminate]. injection Hsome as <-.
  now exists (Some (c, i, tg)).
Qed.

(** A property of the buffer that [patch_call_site] keeps at every
    disassembled call address is kept by a whole replacement, and by the
    loop over the replacements. *)
Lemma keeps_data_replacement (D : list byte → Prop) (E : exn → Prop)
  (int16 : string → option Z) (t : tools) (file_offset_base vaddr_base : Z)
  (r : string * string) :
  (∀ call_vaddr old_addr new_addr,
     call_vaddr ∈ bl_addresses (objdump_lines t) →
     keeps_data D E
       (patch_call_site file_offset_base vaddr_base call_vaddr old_addr new_addr)) →
  keeps_data D E (process_replacement int16 t file_offset_base vaddr_base r).
Proof.
  intros Hsite. destruct r as [old_func new_func]. unfold process_replacement.
  apply keeps_data_bind; [apply keeps_data_print | intros _].
  apply keeps_data_try; [| intros re; apply keeps_data_print].
  apply keeps_data_bind; [apply keeps_data_liftR; eauto | intros old_addr].
  apply keeps_data_bind; [apply keeps_data_liftR; eauto | intros new_addr].
  apply keeps_data_bind; [apply keeps_data_print | intros _].
  apply keeps_data_bind; [apply keeps_data_print | intros _].
  apply keeps_data_bind; [apply keeps_data_print | intros _].
  destruct (find_call_sites (objdump_lines t) old_addr) as [| site sites] eqn:Es.
  - apply keeps_data_print.
  - unfold patch_call_sites. apply keeps_data_for_each. intros x Hx.
    apply keeps_data_weaken with (E := E); [now left |].
    apply keeps_data_bind.
    + apply Hsite.
      apply (find_call_sites_bl_addresses (objdump_lines t) old_addr).
      now rewrite Es.
    + intros [|]; [apply keeps_data_incr | apply keeps_data_ret].
Qed.

Lemma keeps_data_run (D : list byte → Prop) (E : exn → Prop)
  (int16 : string → option Z) (t : tools) (elf : list byte)
  (file_offset_base vaddr_base : Z) (replacements : list (string * string))
  (r : exn + unit) (s : state) :
  (∀ call_vaddr old_addr new_addr,
     call_vaddr ∈ bl_addresses (objdump_lines t) →
     keeps_data D E
       (patch_call_site file_offset_base vaddr_base call_vaddr old_addr new_addr)) →
  D elf →
  run_replacements int16 t elf file_offset_base vaddr_base replacements = (r, s) →
  D (data s) ∧ ∀ e, r = inl e → E e.
Proof.
  intros Hsite HD Hrun. unfold run_replacements in Hrun.
  refine (keeps_data_for_each D E replacements _ _ _ r s _ Hrun).
  - intros x _. now apply keeps_data_replacement.
  - exact HD.
Qed.

(** ** What a run can change in the buffer *)

Lemma run_replacements_frame (int16 : string → option Z) (t : tools)
  (elf : list byte) (file_offset_base vaddr_base : Z)
  (replacements : list (string * string)) (r : exn + unit) (s : state) :
  run_replacements int16 t elf file_offset_base vaddr_base replacements = (r, s) →
  length (data s) = length elf
  ∧ ∀ j, off_sites file_offset_base vaddr_base (bl_addresses (objdump_lines t)) j →
         data s !! j = elf !! j.
Proof.
  intros Hrun.
  refine (proj1 (keeps_data_run
                   (λ d, length d = length elf
                         ∧ ∀ j, off_sites file_offset_base vaddr_base
                                  (bl_addresses (objdump_lines t)) j →
                                d !! j = elf !! j)
                   (λ _, True) int16 t elf file_offset_base vaddr_base
                   replacements r s _ _ Hrun)).
  - intros call_vaddr old_addr new_addr Hcv s0 r0 s0' [Hlen Hframe] Hsite.
    destruct (patch_call_site_steps _ _ _ _ _ _ _ _ Hsite)
      as (Hl & _ & _ & Hother).
    split; [| trivial]. split; [congruence |].
    intros j Hj. rewrite <- (Hframe j Hj). apply Hother.
    exact (Hj call_vaddr Hcv).
  - split; [reflexivity | trivial].
Qed.

(** X19 (the file keeps its size): whenever [patch_runtime] writes the
    file, it writes as many bytes as the file had. *)
Theorem written_file_keeps_length (int16 : string → option Z) (t : tools)
  (elf : list byte) (replacements : list (string * string)) (d : list byte) :
  written (patch_runtime int16 t elf replacements) = Some d →
  length d = length elf.
Proof.
  unfold patch_runtime, get_text_section_info.
  destruct (text_section t) as [[file_offset_base vaddr_base] |]; [| discriminate].
  destruct (for_each replacements _ _) as [[e | u] s] eqn:Hrun; [discriminate |].
  destruct (0 <? total_patches s); [| discriminate].
  intros [= <-].
  exact (proj1 (run_replacements_frame int16 t elf file_offset_base vaddr_base
                  replacements _ s Hrun)).
Qed.

Lemma written_file_keeps_length_witness :
  length [x10; x04; x00; x94; x1f; x20; x03; xd5; x0e; x04; x00; x94]
  = length scenario_elf.
Proof.
  apply (written_file_keeps_length hex_value scenario_tools scenario_elf
           [("old", "new")]).
  reflexivity.
Defined.

(** X20 (only call-site words change): in the file that [patch_runtime]
    writes, every byte that lies in none of the four-byte words at the
    addresses of the disassembled [bl] lines is the byte the file had. *)
Theorem written_file_differs_only_at_call_sites (int16 : string → option Z)
  (t : tools) (elf : list byte) (replacements : list (string * string))
  (file_offset_base vaddr_base : Z) (d : list byte) (j : nat) :
  text_section t = Some (file_offset_base, vaddr_base) →
  written (patch_runtime int16 t elf replacements) = Some d →
  off_sites file_offset_base vaddr_base (bl_addresses (objdump_lines t)) j →
  d !! j = elf !! j.
Proof.
  unfold patch_runtime, get_text_section_info. intros ->.
  destruct (for_each replacements _ _) as [[e | u] s] eqn:Hrun; [discriminate |].
  destruct (0 <? total_patches s); [| discriminate].
  intros [= <-].
  exact (proj2 (run_replacements_frame int16 t elf file_offset_base vaddr_base
                  replacements _ s Hrun) j).
Qed.

(** Byte 5 of the scenario image belongs to the [nop] between the two
    calls. *)
Lemma written_file_differs_only_at_call_sites_witness :
  [x10; x04; x00; x94; x1f; x20; x03; xd5; x0e; x04; x00; x94] !! 5%nat
  = scenario_elf !! 5%nat.
Proof.
  apply (written_file_differs_only_at_call_sites hex_value scenario_tools
           scenario_elf [("old", "new")] 0 0x1000).
  - reflexivity.
  - reflexivity.
  - intros call_vaddr Hcv. unfold site_offset.
    apply elem_of_cons in Hcv as [-> | Hcv]; [right; cbn; lia |].
    apply list_elem_of_singleton in Hcv as ->. left. cbn. lia.
Defined.

(** ** How a run can end *)

Lemma run_replacements_raises (int16 : string → option Z) (t : tools)
  (elf : list byte) (file_offset_base vaddr_base : Z)
  (replacements : list (string * string)) (e : exn) (s : state) :
  run_replacements int16 t elf file_offset_base vaddr_base replacements
  = (inl e, s) →
  e = Raise_struct_error.
Proof.
  intros Hrun.
  refine (proj2 (keeps_data_run (λ _, True) (λ e, e = Raise_struct_error)
                   int16 t elf file_offset_base vaddr_base replacements
                   _ s _ I Hrun) e eq_refl).
  intros call_vaddr old_addr new_addr _ s0 r0 s0' _ Hsite.
  split; [trivial |]. intros e0 ->.
  destruct (patch_call_site_cases file_offset_base vaddr_base call_vaddr
              old_addr new_addr s0)
    as [[_ Hr] | [(_ & _ & Hr) | (w & _ & _ & _ & Hcase)]].
  - rewrite Hr in Hsite. discriminate.
  - rewrite Hr in Hsite. now injection Hsite as <- _.
  - destruct Hcase as [[_ Hr] | [(_ & e' & _ & Hr) | (_ & nw & _ & Hr)]];
      rewrite Hr in Hsite; discriminate.
Qed.

(** X21 (the two ways to abort): a run ends with an exception only in two
    cases, a missing [.text] section, when nothing but the parse warnings of
    [get_text_section_info] has been printed, or a [struct.error] from a
    call site; a symbol that cannot be found never ends the run.  In both
    cases the file is not written. *)
Theorem run_aborts_only_two_ways (int16 : string → option Z) (t : tools)
  (elf : list byte) (replacements : list (string * string)) (e : exn) :
  exit (patch_runtime int16 t elf replacements) = inl e →
  written (patch_runtime int16 t elf replacements) = None
  ∧ ((text_section t = None
      ∧ e = Raise_RuntimeError CouldNotFindTextSection
      ∧ printed (patch_runtime int16 t elf replacements)
        = map WarnErrorParsingLine (text_section_warned t))
     ∨ (is_Some (text_section t) ∧ e = Raise_struct_error)).
Proof.
  intros Hexit.
  split; [exact (proj1 (aborted_run_writes_nothing _ _ _ _ _ Hexit)) |].
  revert Hexit. unfold patch_runtime, get_text_section_info.
  destruct (text_section t) as [[file_offset_base vaddr_base] |].
  - destruct (for_each replacements _ _) as [[e' | u] s] eqn:Hrun.
    + intros [= <-]. right. split; [eauto |].
      exact (run_replacements_raises int16 t elf file_offset_base vaddr_base
               replacements e' s Hrun).
    + destruct (0 <? total_patches s); discriminate.
  - intros [= <-]. left. repeat split.
Qed.

(** A six-byte file with two disassembled calls: the first site is
    patched, the second has two bytes left and ends the run. *)
Lemma run_aborts_only_two_ways_witness :
  exit (patch_runtime hex_value
          (Tools (Some (0, 0x1000)) []
             [["2000"; "t"; "old"]; ["2040"; "T"; "new"]]
             [Some (0x1000, 0x94000400, 0x2000); Some (0x1004, 0x940003ff, 0x2000)])
          [x00; x04; x00; x94; xff; x03] [("old", "new")])
  = inl Raise_struct_error
  ∧ written (patch_runtime hex_value
               (Tools (Some (0, 0x1000)) []
                  [["2000"; "t"; "old"]; ["2040"; "T"; "new"]]
                  [Some (0x1000, 0x94000400, 0x2000);
                   Some (0x1004, 0x940003ff, 0x2000)])
               [x00; x04; x00; x94; xff; x03] [("old", "new")])
    = None.
Proof.
  split; [reflexivity |].
  apply (run_aborts_only_two_ways hex_value
           (Tools (Some (0, 0x1000)) []
              [["2000"; "t"; "old"]; ["2040"; "T"; "new"]]
              [Some (0x1000, 0x94000400, 0x2000);
               Some (0x1004, 0x940003ff, 0x2000)])
           [x00; x04; x00; x94; xff; x03] [("old", "new")] Raise_struct_error).
  reflexivity.
Defined.

Lemma run_replacements_completes (int16 : string → option Z) (t : tools)
  (elf : list byte) (file_offset_base vaddr_base : Z)
  (replacements : list (string * string)) (r : exn + unit) (s : state) :
  (∀ call_vaddr, call_vaddr ∈ bl_addresses (objdump_lines t) →
     site_offset file_offset_base vaddr_base call_vaddr < 0
     ∨ Z.of_nat (length elf) ≤ site_offset file_offset_base vaddr_base call_vaddr
     ∨ site_offset file_offset_base vaddr_base call_vaddr + 4
       ≤ Z.of_nat (length elf)) →
  run_replacements int16 t elf file_offset_base vaddr_base replacements = (r, s) →
  r = inr tt.
Proof.
  intros Hfit Hrun.
  destruct (keeps_data_run (λ d, length d = length elf) (λ _, False)
              int16 t elf file_offset_base vaddr_base replacements r s)
    as [_ Hno]; [| reflexivity | exact Hrun |].
  - intros call_vaddr old_addr new_addr Hcv s0 r0 s0' Hlen Hsite.
    destruct (patch_call_site_steps _ _ _ _ _ _ _ _ Hsite) as (Hl & _).
    split; [congruence |]. intros e0 ->.
    destruct (patch_call_site_cases file_offset_base vaddr_base call_vaddr
                old_addr new_addr s0)
      as [[_ Hr] | [(Hin & Hshort & Hr) | (w & _ & _ & _ & Hcase)]].
    + rewrite Hr in Hsite. discriminate.
    + specialize (Hfit call_vaddr Hcv). unfold site_offset in Hfit. lia.
    + destruct Hcase as [[_ Hr] | [(_ & e' & _ & Hr) | (_ & nw & _ & Hr)]];
        rewrite Hr in Hsite; discriminate.
  - destruct r as [e | []]; [| reflexivity]. now destruct (Hno e).
Qed.

(** X22 (runs that cannot abort): when the [.text] section is found and
    every disassembled [bl] address translates to an offset that is either
    outside the file or has its four bytes inside it, [patch_runtime]
    returns [True] or [False]; no exception ends the run. *)
Theorem run_completes (int16 : string → option Z) (t : tools)
  (elf : list byte) (replacements : list (string * string))
  (file_offset_base vaddr_base : Z) :
  text_section t = Some (file_offset_base, vaddr_base) →
  (∀ call_vaddr, call_vaddr ∈ bl_addresses (objdump_lines t) →
     site_offset file_offset_base vaddr_base call_vaddr < 0
     ∨ Z.of_nat (length elf) ≤ site_offset file_offset_base vaddr_base call_vaddr
     ∨ site_offset file_offset_base vaddr_base call_vaddr + 4
       ≤ Z.of_nat (length elf)) →
  ∃ b, exit (patch_runtime int16 t elf replacements) = inr b.
Proof.
  intros Htext Hfit. unfold patch_runtime, get_text_section_info. rewrite Htext.
  destruct (for_each replacements _ _) as [r s] eqn:Hrun.
  rewrite (run_replacements_completes int16 t elf file_offset_base vaddr_base
             replacements r s Hfit Hrun).
  destruct (0 <? total_patches s); eauto.
Qed.

Lemma run_completes_witness :
  ∃ b, exit (patch_runtime hex_value scenario_tools scenario_elf
               [("gone", "new"); ("old", "far"); ("old", "new")])
       = inr b.
Proof.
  apply (run_completes hex_value scenario_tools scenario_elf
           [("gone", "new"); ("old", "far"); ("old", "new")] 0 0x1000).
  - reflexivity.
  - intros call_vaddr Hcv. unfold site_offset. right. right.
    apply elem_of_cons in Hcv as [-> | Hcv]; [cbn; lia |].
    apply list_elem_of_singleton in Hcv as ->. cbn. lia.
Defined.

(** ** Replacements that are given up *)

(** X23 (a symbol that is not found): when the old name, or else the new
    name, cannot be resolved, the replacement ends normally after printing
    the error; buffer and counter are as before, and no call site is looked
    for. *)
Theorem missing_symbol_skips_replacement (int16 : string → option Z) (t : tools)
  (file_offset_base vaddr_base : Z) (old_func new_func : string)
  (e : RuntimeError) (s : state) :
  find_symbol_address int16 (nm_lines t) old_func (Some "t") = inl e
  ∨ ((∃ old_addr,
        find_symbol_address int16 (nm_lines t) old_func (Some "t") = inr old_addr)
     ∧ find_symbol_address int16 (nm_lines t) new_func (Some "T") = inl e) →
  process_replacement int16 t file_offset_base vaddr_base (old_func, new_func) s
  = (inr tt,
     State (data s) (total_patches s)
       (stdout s ++ [ProcessingReplacement old_func new_func; ErrorRuntime e])).
Proof.
  intros Hmiss. unfold process_replacement, try_except_RuntimeError. unfold_M.
  destruct Hmiss as [Hold | [Hold Hnew]].
  - rewrite Hold. cbn. now rewrite <- app_assoc.
  - destruct Hold as [old_addr ->].
    rewrite Hnew. cbn. now rewrite <- app_assoc.
Qed.

Lemma missing_symbol_skips_replacement_witness :
  process_replacement hex_value scenario_tools 0 0x1000 ("old", "gone")
    (State scenario_elf 0 [])
  = (inr tt,
     State scenario_elf 0
       [ProcessingReplacement "old" "gone";
        ErrorRuntime (CouldNotFindSymbol "gone")]).
Proof.
  apply (missing_symbol_skips_replacement hex_value scenario_tools 0 0x1000
           "old" "gone" (CouldNotFindSymbol "gone") (State scenario_elf 0 [])).
  right. split; [now exists 0x2000 | reflexivity].
Defined.

(** X24 (no call site): when both names resolve and the disassembly shows
    no call to the old address, the replacement prints the two addresses,
    the count 0 and a warning, and changes nothing else. *)
Theorem no_call_sites_skips_replacement (int16 : string → option Z) (t : tools)
  (file_offset_base vaddr_base : Z) (old_func new_func : string)
  (old_addr new_addr : Z) (s : state) :
  find_symbol_address int16 (nm_lines t) old_func (Some "t") = inr old_addr →
  find_symbol_address int16 (nm_lines t) new_func (Some "T") = inr new_addr →
  (∀ call_addr insn, Some (call_addr, insn, old_addr) ∉ objdump_lines t) →
  process_replacement int16 t file_offset_base vaddr_base (old_func, new_func) s
  = (inr tt,
     State (data s) (total_patches s)
       (stdout s
        ++ [ProcessingReplacement old_func new_func; OldFunctionAddress old_addr;
            NewFunctionAddress new_addr; FoundCallSites 0;
            WarnNoCallSites old_func])).
Proof.
  intros Hold Hnew Hnone.
  assert (find_call_sites (objdump_lines t) old_addr = []) as Hsites.
  { destruct (find_call_sites (objdump_lines t) old_addr) as [| [c i] l] eqn:Es;
      [reflexivity |].
    assert ((c, i) ∈ find_call_sites (objdump_lines t) old_addr) as Hin
      by (rewrite Es; left).
    unfold find_call_sites in Hin. apply list_elem_of_omap in Hin
      as ([[[c' i'] tg] |] & Hin & Hsome); [| discriminate].
    destruct (Z.eqb_spec tg old_addr) as [-> | _]; [| discriminate].
    now destruct (Hnone c' i'). }
  unfold process_replacement, try_except_RuntimeError. unfold_M.
  rewrite Hold, Hnew. cbn. rewrite Hsites. cbn.
  now rewrite <- !app_assoc.
Qed.

Lemma no_call_sites_skips_replacement_witness :
  process_replacement hex_value scenario_tools 0 0x1000 ("new", "old")
    (State scenario_elf 0 [])
  = (inr tt,
     State scenario_elf 0
       [ProcessingReplacement "new" "old"; OldFunctionAddress 0x2040;
        NewFunctionAddress 0x2000; FoundCallSites 0; WarnNoCallSites "new"]).
Proof.
  apply (no_call_sites_skips_replacement hex_value scenario_tools 0 0x1000
           "new" "old" 0x2040 0x2000 (State scenario_elf 0 [])).
  - reflexivity.
  - reflexivity.
  - intros call_addr insn Hin.
    apply elem_of_cons in Hin as [[=] | Hin].
    apply elem_of_cons in Hin as [[=] | Hin].
    apply list_elem_of_singleton in Hin. discriminate.
Defined.

(** ** Replacing a function by itself *)

(** X25 (self-replacement of a whole list of sites): when every site of
    the list holds, in the buffer, the encoding of a call to [addr],
    redirecting the sites from [addr] to [addr] patches and counts every
    one of them and leaves the buffer byte for byte as it was. *)
Theorem self_replacement_keeps_bytes
  (file_offset_base vaddr_base addr : Z) (sites : list (Z * Z)) (s : state) :
  (∀ site, site ∈ sites →
     0 ≤ file_offset_base + (fst site - vaddr_base) < Z.of_nat (length (data s))
     ∧ ∃ w, unpack_from (data s) (file_offset_base + (fst site - vaddr_base))
            = Some w
            ∧ encode_bl_instruction (fst site) addr = inr w) →
  ∃ log,
    patch_call_sites file_offset_base vaddr_base sites addr addr s
    = (inr tt,
       State (data s) (total_patches s + Z.of_nat (length sites))
         (stdout s ++ log)).
Proof.
  revert s. induction sites as [| site sites IH]; intros s Hsites.
  - exists []. rewrite patch_call_sites_nil, app_nil_r.
    cbn [length]. replace (total_patches s + Z.of_nat 0) with (total_patches s)
      by lia.
    now destruct s.
  - destruct (Hsites site ltac:(left)) as (Hin & w & Hw & Henc).
    rewrite patch_call_sites_cons.
    rewrite (self_patch_same_word _ _ _ _ _ w Hin Hw Henc).
    destruct (IH (State (data s) (total_patches s + 1)
                    (stdout s ++ mismatch_warning (fst site) w addr
                     ++ [PatchedCall (fst site)
                           (file_offset_base + (fst site - vaddr_base))
                           addr addr])))
      as [log Hlog].
    { intros x Hx. cbn [data]. apply Hsites. now right. }
    cbn [data total_patches stdout] in *.
    eexists. rewrite Hlog. f_equal. f_equal.
    + cbn [length]. lia.
    + rewrite <- app_assoc. reflexivity.
Qed.

(** A forward call at [0x1000] and a backward call at [0x3000], both to
    [0x2000]. *)
Lemma self_replacement_keeps_bytes_witness :
  ∃ log,
    patch_call_sites 0x1000 0x1000 [(0x1000, 0); (0x3000, 0)] 0x2000 0x2000
      (State (replicate 0x1000 x00 ++ [x00; x04; x00; x94]
              ++ replicate 0x1ffc x00 ++ [x00; xfc; xff; x97]) 0 [])
    = (inr tt,
       State (replicate 0x1000 x00 ++ [x00; x04; x00; x94]
              ++ replicate 0x1ffc x00 ++ [x00; xfc; xff; x97])
         (0 + Z.of_nat (length [(0x1000, 0); (0x3000, 0)])) ([] ++ log)).
Proof.
  apply (self_replacement_keeps_bytes 0x1000 0x1000 0x2000
           [(0x1000, 0); (0x3000, 0)]
           (State (replicate 0x1000 x00 ++ [x00; x04; x00; x94]
                   ++ replicate 0x1ffc x00 ++ [x00; xfc; xff; x97]) 0 [])).
  intros site Hsite.
  apply elem_of_cons in Hsite as [-> | Hsite].
  - split; [vm_compute; split; [discriminate | reflexivity] |].
    exists 0x94000400. split; vm_compute; reflexivity.
  - apply list_elem_of_singleton in Hsite as ->.
    split; [vm_compute; split; [discriminate | reflexivity] |].
    exists 0x97fffc00. split; vm_compute; reflexivity.
Defined.

(** * Properties of [get_text_section_info] *)

Section ReadelfFacts.

Variable split : string → list string.
Variable strip : string → string.
Variable int16 : string → option Z.

(** The loop over the parts returns exactly from the first part equal to
    [PROGBITS], when two parts follow it and both can be read. *)
Lemma scan_parts_returned (parts : list string) (offset vaddr : Z) :
  Readelf.scan_parts strip int16 parts = Readelf.Returned (offset, vaddr)
  ↔ ∃ before vaddr_str offset_str after,
      parts = before ++ "PROGBITS" :: vaddr_str :: offset_str :: after
      ∧ ("PROGBITS" ∉ before)
      ∧ int16 (strip vaddr_str) = Some vaddr
      ∧ int16 (strip offset_str) = Some offset.
Proof.
  split.
  - induction parts as [| part rest IH]; [discriminate |].
    destruct rest as [| v [| o rest']]; try discriminate.
    cbn [Readelf.scan_parts].
    destruct (String.eqb_spec part "PROGBITS") as [-> | Hne].
    + destruct (int16 (strip v)) as [va |] eqn:Ev; [| discriminate].
      destruct (int16 (strip o)) as [off |] eqn:Eo; [| discriminate].
      intros [= <- <-]. exists [], v, o, rest'.
      repeat split; try assumption. apply not_elem_of_nil.
    + intros Hscan.
      destruct (IH Hscan) as (before & v' & o' & after & Heq & Hnot & Hv & Ho).
      exists (part :: before), v', o', after.
      split; [now rewrite Heq |]. split; [| now split].
      apply not_elem_of_cons. split; [congruence | exact Hnot].
  - intros (before & v & o & after & -> & Hnot & Hv & Ho).
    induction before as [| b before IH].
    + cbn. now rewrite Hv, Ho.
    + apply not_elem_of_cons in Hnot as [Hb Hnot].
      specialize (IH Hnot).
      assert (String.eqb b "PROGBITS" = false) as Hbf
        by (apply String.eqb_neq; congruence).
      destruct before as [| b1 [| b2 before]];
        cbn [app Readelf.scan_parts] in *; now rewrite Hbf.
Qed.

(** Whether a line is usable can be read off the three tests. *)
Lemma text_line_cases (line : string) :
  (∃ offset vaddr, Readelf.text_line split strip int16 line offset vaddr)
  ∨ (∀ offset vaddr, ¬ Readelf.text_line split strip int16 line offset vaddr).
Proof.
  unfold Readelf.text_line.
  destruct (str_in ".text" line); [| right; intros o v (H & _); discriminate].
  destruct (str_in "PROGBITS" line);
    [| right; intros o v (_ & H & _); discriminate].
  destruct (Readelf.scan_parts strip int16 (split line)) as [[o v] | |] eqn:Es.
  - left. exists o, v. repeat split. now apply scan_parts_returned.
  - right. intros o v (_ & _ & H). apply scan_parts_returned in H. congruence.
  - right. intros o v (_ & _ & H). apply scan_parts_returned in H. congruence.
Qed.

(** A line from which the function does not return is passed over, with
    or without a warning. *)
Lemma get_text_section_info_skip (line : string) (lines : list string) :
  (∀ offset vaddr, ¬ Readelf.text_line split strip int16 line offset vaddr) →
  snd (Readelf.get_text_section_info split strip int16 (line :: lines))
  = snd (Readelf.get_text_section_info split strip int16 lines).
Proof.
  intros Hnot. cbn [Readelf.get_text_section_info].
  destruct (str_in ".text" line) eqn:Htext; [| reflexivity].
  destruct (str_in "PROGBITS" line) eqn:Hprog; [| reflexivity].
  cbn [andb].
  destruct (Readelf.scan_parts strip int16 (split line)) as [[o v] | |] eqn:Es.
  - exfalso. apply (Hnot o v). unfold Readelf.text_line.
    split; [exact Htext |]. split; [exact Hprog |].
    now apply scan_parts_returned.
  - now destruct (Readelf.get_text_section_info split strip int16 lines).
  - reflexivity.
Qed.

Lemma get_text_section_info_returns (before after : list string)
  (line : string) (offset vaddr : Z) :
  Readelf.text_line split strip int16 line offset vaddr →
  (∀ l o v, l ∈ before → ¬ Readelf.text_line split strip int16 l o v) →
  snd (Readelf.get_text_section_info split strip int16 (before ++ line :: after))
  = inr (offset, vaddr).
Proof.
  intros (Htext & Hprog & Hparts) Hbefore.
  induction before as [| l before IH].
  - cbn [app Readelf.get_text_section_info]. rewrite Htext, Hprog. cbn [andb].
    now rewrite (proj2 (scan_parts_returned (split line) offset vaddr) Hparts).
  - cbn [app]. rewrite get_text_section_info_skip.
    + apply IH. intros l' o v Hl'. apply Hbefore. now right.
    + intros o v. apply Hbefore. now left.
Qed.

(** X26 (the first usable line decides): [get_text_section_info] returns
    the pair [(offset, vaddr)] read from the first line that contains
    [.text] and [PROGBITS] and whose first [PROGBITS] part is followed by
    two parts that read as hexadecimal numbers, the address first, the
    offset second. *)
Theorem get_text_section_info_first_line (before after : list string)
  (line : string) (offset vaddr : Z) :
  Readelf.text_line split strip int16 line offset vaddr →
  (∀ l o v, l ∈ before → ¬ Readelf.text_line split strip int16 l o v) →
  snd (Readelf.get_text_section_info split strip int16 (before ++ line :: after))
  = inr (offset, vaddr).
Proof. apply get_text_section_info_returns. Qed.

(** X27 (no usable line): [get_text_section_info] raises "Could not find
    .text section" exactly when no line is usable; it fails in no other
    way. *)
Theorem get_text_section_info_not_found (lines : list string) :
  (snd (Readelf.get_text_section_info split strip int16 lines)
   = inl CouldNotFindTextSection
   ↔ ∀ l o v, l ∈ lines → ¬ Readelf.text_line split strip int16 l o v)
  ∧ ∀ e, snd (Readelf.get_text_section_info split strip int16 lines) = inl e →
         e = CouldNotFindTextSection.
Proof.
  induction lines as [| line lines [IH1 IH2]].
  - split; [| now intros e [= <-]].
    split; [intros _ l o v Hl; inversion Hl | reflexivity].
  - destruct (text_line_cases line) as [(o & v & Hline) | Hnot].
    + pose proof (get_text_section_info_returns [] lines line o v Hline
                    ltac:(intros l o' v' Hl; inversion Hl)) as Hres.
      cbn [app] in Hres. rewrite Hres. split; [| discriminate].
      split; [discriminate |]. intros Hall.
      now destruct (Hall line o v ltac:(left)).
    + rewrite (get_text_section_info_skip line lines Hnot).
      split; [| exact IH2]. rewrite IH1. split.
      * intros Hall l o v Hl. apply elem_of_cons in Hl as [-> | Hl];
          [apply Hnot | now apply Hall].
      * intros Hall l o v Hl. apply Hall. now right.
Qed.

End ReadelfFacts.

(** Three section headers; the second is the [.text] section at address
    [0x200000], file offset [0x10000]. *)
Lemma get_text_section_info_first_line_witness :
  snd (Readelf.get_text_section_info split_ws strip_ws hex_value
         (["  [ 0]                   NULL             0000000000000000  00000000"]
          ++ "  [ 1] .text             PROGBITS         0000000000200000  00010000"
          :: ["  [ 2] .rodata           PROGBITS         0000000000300000  00110000"]))
  = inr (0x10000, 0x200000).
Proof.
  apply (get_text_section_info_first_line split_ws strip_ws hex_value
           ["  [ 0]                   NULL             0000000000000000  00000000"]
           ["  [ 2] .rodata           PROGBITS         0000000000300000  00110000"]
           "  [ 1] .text             PROGBITS         0000000000200000  00010000"
           0x10000 0x200000).
  - split; [reflexivity |]. split; [reflexivity |].
    exists ["["; "1]"; ".text"], "0000000000200000", "00010000", [].
    split; [reflexivity |]. split; [| split; reflexivity].
    intros Hin.
    apply elem_of_cons in Hin as [[=] | Hin].
    apply elem_of_cons in Hin as [[=] | Hin].
    apply list_elem_of_singleton in Hin. discriminate.
  - intros l o v Hl (Htext & _). apply list_elem_of_singleton in Hl as ->.
    vm_compute in Htext. discriminate.
Defined.

(** * Properties of [main] *)

(** [patch_runtime] returns [True] exactly when it writes the file, and it
    writes the file only after at least one "Patched call" line. *)
Lemma patch_runtime_true_iff_written (int16 : string → option Z) (t : tools)
  (elf : list byte) (replacements : list (string * string)) :
  (exit (patch_runtime int16 t elf replacements) = inr true
   ↔ is_Some (written (patch_runtime int16 t elf replacements)))
  ∧ (is_Some (written (patch_runtime int16 t elf replacements)) →
     0 < patched_sites (printed (patch_runtime int16 t elf replacements))).
Proof.
  unfold patch_runtime, get_text_section_info.
  destruct (text_section t) as [[file_offset_base vaddr_base] |].
  - destruct (for_each replacements _ _) as [[e | u] s] eqn:Hrun.
    + split; [split; [discriminate | now intros [d Hd]] | now intros [d Hd]].
    + pose proof (run_replacements_counted int16 t elf file_offset_base
                    vaddr_base replacements _ s Hrun) as Hcount.
      unfold counted in Hcount.
      destruct (Z.ltb_spec 0 (total_patches s)) as [Hpos | Hzero]; cbn.
      * split; [split; eauto |]. intros _.
        rewrite patched_sites_app. cbn. lia.
      * split; [split; [discriminate | now intros [d Hd]] | now intros [d Hd]].
  - split; [split; [discriminate | now intros [d Hd]] | now intros [d Hd]].
Qed.

(** X28 (the exit status): [main] ends with status 0 or 1, and with 0
    exactly when [patch_runtime] was run and wrote the file, which it does
    only after patching at least one site; wrong usage, no patch and an
    exception all end with status 1. *)
Theorem main_exit_status (int16 : string → option Z) (t : tools)
  (elf : list byte) (argv : list string) :
  (fst (main int16 t elf argv) = 0 ∨ fst (main int16 t elf argv) = 1)
  ∧ (fst (main int16 t elf argv) = 0
     ↔ ∃ r d, snd (main int16 t elf argv) = Some r
              ∧ written r = Some d
              ∧ 0 < patched_sites (printed r)).
Proof.
  unfold main. cbv zeta.
  destruct ((Z.of_nat (length argv) <? 4)
            || negb (Z.of_nat (length argv) mod 2 =? 0)).
  - cbn. split; [now right |].
    split; [discriminate | now intros (r & d & [=] & _)].
  - set (reps := replacements_of_argv (drop 2 argv)).
    destruct (patch_runtime_true_iff_written int16 t elf reps) as [Hiff Hpos].
    destruct (exit (patch_runtime int16 t elf reps)) as [e | [|]] eqn:Hexit; cbn.
    + split; [now right |]. split; [discriminate |].
      intros (r & d & [= <-] & Hw & _).
      assert (is_Some (written (patch_runtime int16 t elf reps))) as Hs by eauto.
      apply Hiff in Hs. discriminate.
    + split; [now left |]. split; [intros _ | reflexivity].
      destruct (proj1 Hiff eq_refl) as [d Hd].
      exists (patch_runtime int16 t elf reps), d.
      split; [reflexivity |]. split; [exact Hd |]. apply Hpos. eauto.
    + split; [now right |]. split; [discriminate |].
      intros (r & d & [= <-] & Hw & _).
      assert (is_Some (written (patch_runtime int16 t elf reps))) as Hs by eauto.
      apply Hiff in Hs. discriminate.
Qed.

Lemma replacements_of_argv_flat (args : list string) :
  (Nat.even (length args) = true →
   flat_map (λ r, [fst r; snd r]) (replacements_of_argv args) = args)
  ∧ ∀ arg, Nat.even (length (arg :: args)) = true →
      flat_map (λ r, [fst r; snd r]) (replacements_of_argv (arg :: args))
      = arg :: args.
Proof.
  induction args as [| a args [IH1 IH2]].
  - split; [reflexivity | discriminate].
  - split; [apply IH2 |].
    intros arg Heven. cbn [replacements_of_argv flat_map fst snd app].
    f_equal. f_equal. apply IH1. exact Heven.
Qed.

(** X29 (the arguments are paired in order): with at least four
    arguments and an even count, [main] runs [patch_runtime] on pairs that,
    written out one after the other, are exactly the arguments after the
    file name: none is dropped, repeated or reordered. *)
Theorem main_pairs_every_argument (int16 : string → option Z) (t : tools)
  (elf : list byte) (argv : list string) :
  (4 ≤ length argv)%nat → Nat.even (length argv) = true →
  snd (main int16 t elf argv)
  = Some (patch_runtime int16 t elf (replacements_of_argv (drop 2 argv)))
  ∧ flat_map (λ r, [fst r; snd r]) (replacements_of_argv (drop 2 argv))
    = drop 2 argv.
Proof.
  intros Hlen Heven. split.
  - unfold main. cbv zeta.
    destruct (Z.ltb_spec (Z.of_nat (length argv)) 4) as [Hlt | _]; [lia |].
    assert (Z.of_nat (length argv) mod 2 = 0) as ->.
    { apply Nat.even_spec in Heven as [k Hk]. rewrite Hk.
      rewrite Nat2Z.inj_mul, Z.mul_comm. apply Z.mod_mul. lia. }
    cbn [Z.eqb negb orb].
    now destruct (exit (patch_runtime int16 t elf
                          (replacements_of_argv (drop 2 argv)))) as [e | [|]].
  - apply (proj1 (replacements_of_argv_flat (drop 2 argv))).
    destruct argv as [| a0 [| a1 rest]]; try (cbn in Hlen; lia).
    exact Heven.
Qed.

Lemma main_pairs_every_argument_witness :
  snd (main hex_value scenario_tools scenario_elf
         ["patch_runtime.py"; "kernel.elf"; "gone"; "new"; "old"; "new"])
  = Some (patch_runtime hex_value scenario_tools scenario_elf
            [("gone", "new"); ("old", "new")])
  ∧ flat_map (λ r, [fst r; snd r]) [("gone", "new"); ("old", "new")]
    = ["gone"; "new"; "old"; "new"].
Proof.
  apply (main_pairs_every_argument hex_value scenario_tools scenario_elf
           ["patch_runtime.py"; "kernel.elf"; "gone"; "new"; "old"; "new"]).
  - cbn. lia.
  - reflexivity.
Defined.

(** * The section headers and the run together *)

(** A [.text] line whose address cannot be read, and no other: the
    warning of [get_text_section_info] is all that is printed before the
    [RuntimeError] ends the run. *)
Example unreadable_text_line_ends_run :
  patch_runtime hex_value
    (tools_of_readelf split_ws strip_ws hex_value
       ["  [ 1] .text             PROGBITS         zzzz  00010000"]
       (nm_lines scenario_tools) (objdump_lines scenario_tools))
    scenario_elf [("old", "new")]
  = Run (inl (Raise_RuntimeError CouldNotFindTextSection)) None
      [WarnErrorParsingLine
         "  [ 1] .text             PROGBITS         zzzz  00010000"].
Proof. reflexivity. Qed.

(** The same line followed by a readable one: the warning comes first,
    then the run as in scenario A. *)
Example unreadable_text_line_then_text :
  patch_runtime hex_value
    (tools_of_readelf split_ws strip_ws hex_value
       ["  [ 1] .text.bad         PROGBITS         zzzz  00010000";
        "  [ 2] .text             PROGBITS         0000000000001000  00000000"]
       (nm_lines scenario_tools) (objdump_lines scenario_tools))
    scenario_elf [("old", "new")]
  = Run (inr true)
      (Some [x10; x04; x00; x94; x1f; x20; x03; xd5; x0e; x04; x00; x94])
      [WarnErrorParsingLine
         "  [ 1] .text.bad         PROGBITS         zzzz  00010000";
       FoundTextSection 0x1000 0; ProcessingReplacement "old" "new";
       OldFunctionAddress 0x2000; NewFunctionAddress 0x2040; FoundCallSites 2;
       PatchedCall 0x1000 0 0x2000 0x2040; PatchedCall 0x1008 8 0x2000 0x2040;
       SuccessfullyPatched 2].
Proof. reflexivity. Qed.
